(** * learn_algo: Bloom filter and reservoir sampling

    A shallow embedding of [learn/bloom_filter.h] and
    [learn/reservoir_sampling.h] together with the properties their
    specification states about them.

    Conventions of the embedding.
    - [std::size_t] ([Index]) is 64 bits wide.  Hash values and the counter of
      the sampler are integers in [Z] and every operation that can leave the
      range is followed by the reduction [Index_of] (modulo [2^64]).  Sizes
      of vectors and the number of hash probes only ever bound loops and are
      compared, so they are kept as [nat].
    - [int] is 32 bits wide, two's complement ([int_of]).
    - A C++ call either returns, throws, or has undefined behaviour; the last
      two are the [Fail] outcomes of the type [outcome].
    - Memory is not modelled: a vector is a list, and the allocations of the
      two constructors are taken to succeed ([std::length_error] and
      [std::bad_alloc] are no outcomes of the model).  Statements about a
      filter or a sampler of a size chosen by the caller therefore take the
      constructor's return as a hypothesis.
    - [double] is IEEE binary64 ([PrimFloat.float]); [std::log] is a
      parameter. *)

From Stdlib Require Import ZArith Lia.
From Stdlib Require Floats.
From stdpp Require Import base tactics option list strings.

Local Open Scope Z_scope.

(** ** Outcomes of a call *)

Inductive failure : Type :=
| runtime_error (what : string)      (* throw std::runtime_error(what)        *)
| out_of_range                       (* std::vector::at on a bad position     *)
| modulo_by_zero                     (* x % 0: undefined behaviour            *)
| index_out_of_bounds                (* v[i], i >= v.size(): undefined        *)
| distribution_bounds (a b : Z)      (* uniform_int_distribution(a, b), b < a *)
| float_to_index.                    (* Index(x), x not an Index: undefined   *)

Inductive outcome (A : Type) : Type :=
| Ok (a : A)
| Fail (e : failure).
Arguments Ok {A} a.
Arguments Fail {A} e.

#[export] Instance outcome_ret : MRet outcome := fun A a => Ok a.
#[export] Instance outcome_bind : MBind outcome := fun A B k m =>
  match m with
  | Ok a => k a
  | Fail e => Fail e
  end.

Definition is_Ok {A} (m : outcome A) : Prop := exists a, m = Ok a.

(** The call threw the [std::runtime_error] the source reports a violated
    precondition with. *)
Definition precondition_violation {A} (m : outcome A) : Prop :=
  exists what, m = Fail (runtime_error what).

(** ** Machine integers *)

Definition Index_bits : Z := 64.
Definition sizeof_Index : Z := 8.
Definition Index_of (z : Z) : Z := z mod 2 ^ Index_bits.

Definition INT_MAX : Z := 2147483647.
(** Conversion of an [Index] to [int]: the value modulo [2^32], read as a
    two's complement number. *)
Definition int_of (z : Z) : Z := (z + 2 ^ 31) mod 2 ^ 32 - 2 ^ 31.

(** [std::hash<int>] of libstdc++: the conversion of the [int] to
    [std::size_t].  Used to instantiate the [Hash] parameter. *)
Definition std_hash_int (v : Z) : Z := Index_of v.

(** ** std::vector<bool> *)

(** [operator==] of two vectors: equal sizes, then equal elements. *)
Fixpoint vector_eqb (a b : list bool) : bool :=
  match a, b with
  | [], [] => true
  | x :: a', y :: b' => Bool.eqb x y && vector_eqb a' b'
  | _, _ => false
  end.

(** [v[i] = x] of [std::vector]: no bounds check in the source, so a
    position past the end is undefined behaviour. *)
Definition vector_set {A} (v : list A) (i : nat) (x : A) : outcome (list A) :=
  if decide (i < length v)%nat then Ok (<[i := x]> v) else Fail index_out_of_bounds.

(** [v[i]] read. *)
Definition vector_get {A} (v : list A) (i : nat) : outcome A :=
  match v !! i with
  | Some x => Ok x
  | None => Fail index_out_of_bounds
  end.

(** [v.at(i) = x]: checked, throws [std::out_of_range]. *)
Definition vector_at_set {A} (v : list A) (i : nat) (x : A) : outcome (list A) :=
  if decide (i < length v)%nat then Ok (<[i := x]> v) else Fail out_of_range.

(** [std::transform(first1, last1, first2, d_first, op)]: walks the first
    range, reads the second at the same position and overwrites the
    destination; the second range and the destination must be long enough. *)
Fixpoint transform (op : bool -> bool -> bool) (first1 first2 d_first : list bool)
  : outcome (list bool) :=
  match first1 with
  | [] => Ok d_first
  | x :: first1' =>
      match first2, d_first with
      | y :: first2', _ :: d_first' =>
          rest ← transform op first1' first2' d_first'; Ok (op x y :: rest)
      | _, _ => Fail index_out_of_bounds
      end
  end.

(** * BloomFilter *)

Module BloomFilter.

Record t : Type := mk {
  num_hashes_ : nat;
  buckets_ : list bool
}.

(** [BloomFilter(Index num_buckets, Index num_hashes)]: no check of the
    arguments and no [throw] of its own.  The allocation of the
    [num_buckets] bits is taken to succeed; where it cannot (a size no
    machine holds) the source throws [std::bad_alloc] and this definition
    does not describe it. *)
Definition ctor (num_buckets num_hashes : nat) : outcome t :=
  Ok {| num_hashes_ := num_hashes; buckets_ := replicate num_buckets false |}.

Definition numBuckets (f : t) : nat := length (buckets_ f).
Definition numHashes (f : t) : nat := num_hashes_ f.
Definition numBucketsPopulated (f : t) : nat :=
  length (filter (fun b => b = true) (buckets_ f)).

(** [operator==] *)
Definition eqb (f other : t) : bool :=
  Nat.eqb (num_hashes_ f) (num_hashes_ other) && vector_eqb (buckets_ f) (buckets_ other).

(** [(hash_a + n * hash_b) % buckets_.size()], in [Index] arithmetic.  Only
    called with [size <> 0]. *)
Definition nth_hash (hash_a hash_b : Z) (n size : nat) : Z :=
  Index_of (hash_a + Index_of (Z.of_nat n * hash_b)) mod Z.of_nat size.

Definition shift_by : Z := sizeof_Index / 2.

Section WithHash.
Context {Value : Type}.
(** The functor [HashT]; its result is a [std::size_t], so the model
    reduces what it returns into that range. *)
Variable Hash : Value -> Z.

Definition hash (value : Value) : Z * Z :=
  let hash := Index_of (Hash value) in
  let hash_a := Index_of (Z.shiftl hash shift_by) in
  let hash_b := Index_of (Z.shiftr hash shift_by) in
  (hash_a, hash_b).

(** The loop of [record]: [n] is the loop variable, [todo] the number of
    iterations left ([num_hashes_ - n]). *)
Fixpoint record_loop (hash_a hash_b : Z) (n todo : nat) (buckets : list bool)
  : outcome (list bool) :=
  match todo with
  | O => Ok buckets
  | S todo' =>
      if Nat.eqb (length buckets) 0 then Fail modulo_by_zero
      else
        let nth_hash := nth_hash hash_a hash_b n (length buckets) in
        buckets' ← vector_set buckets (Z.to_nat nth_hash) true;
        record_loop hash_a hash_b (S n) todo' buckets'
  end.

Definition record (value : Value) (f : t) : outcome t :=
  let '(hash_a, hash_b) := hash value in
  buckets' ← record_loop hash_a hash_b 0 (num_hashes_ f) (buckets_ f);
  Ok {| num_hashes_ := num_hashes_ f; buckets_ := buckets' |}.

(** The loop of [contains], with its early [return false]. *)
Fixpoint contains_loop (hash_a hash_b : Z) (n todo : nat) (buckets : list bool)
  : outcome bool :=
  match todo with
  | O => Ok true
  | S todo' =>
      if Nat.eqb (length buckets) 0 then Fail modulo_by_zero
      else
        let nth_hash := nth_hash hash_a hash_b n (length buckets) in
        bucket ← vector_get buckets (Z.to_nat nth_hash);
        if negb bucket then Ok false
        else contains_loop hash_a hash_b (S n) todo' buckets
  end.

Definition contains (value : Value) (f : t) : outcome bool :=
  let '(hash_a, hash_b) := hash value in
  contains_loop hash_a hash_b 0 (num_hashes_ f) (buckets_ f).

(** A run of [record] calls, first element first. *)
Fixpoint record_all (values : list Value) (f : t) : outcome t :=
  match values with
  | [] => Ok f
  | value :: values' => f' ← record value f; record_all values' f'
  end.

(** The bucket the [n]-th probe of [value] falls into. *)
Definition probe (value : Value) (n size : nat) : nat :=
  Z.to_nat (nth_hash (hash value).1 (hash value).2 n size).

End WithHash.

(** [Index(x)] of a [double]: the [Index] the library's conversion gives, or
    undefined behaviour when [x] has no [Index] value. *)
Definition Index_cast (converted : option nat) : outcome nat :=
  match converted with
  | Some n => Ok n
  | None => Fail float_to_index
  end.

(** [make]: the sizes are computed in [double], with [std::log] and
    [std::ceil] of the C library.  The floating-point operations are taken
    as parameters. *)
Section Make.
Context {Scalar : Type}.
Variables (log ceil : Scalar -> Scalar) (div mul : Scalar -> Scalar -> Scalar).
Variables (Scalar_of_Index : nat -> Scalar) (Index_of_Scalar : Scalar -> option nat).
Variables (one two : Scalar).

Definition make (max_num : nat) (false_positive_error : Scalar) : outcome t :=
  let ideal_num_hashes := div (log (div one false_positive_error)) (log two) in
  num_hashes ← Index_cast (Index_of_Scalar (ceil ideal_num_hashes));
  let ideal_num_buckets :=
    mul (Scalar_of_Index max_num) (div (Scalar_of_Index num_hashes) (log two)) in
  num_buckets ← Index_cast (Index_of_Scalar (ceil ideal_num_buckets));
  ctor num_buckets num_hashes.
End Make.

Definition filterUnion (lhs rhs : t) : outcome t :=
  if negb (Nat.eqb (numHashes lhs) (numHashes rhs)) then
    Fail (runtime_error "error! number of hashes dont match for union")
  else if negb (Nat.eqb (numBuckets lhs) (numBuckets rhs)) then
    Fail (runtime_error "error! number of buckets dont match for union")
  else
    result ← ctor (numBuckets lhs) (numHashes lhs);
    buckets' ← transform orb (buckets_ lhs) (buckets_ rhs) (buckets_ result);
    Ok {| num_hashes_ := num_hashes_ result; buckets_ := buckets' |}.

Definition filterIntersection (lhs rhs : t) : outcome t :=
  if negb (Nat.eqb (numHashes lhs) (numHashes rhs)) then
    Fail (runtime_error "error! number of hashes dont match for union")
  else if negb (Nat.eqb (numBuckets lhs) (numBuckets rhs)) then
    Fail (runtime_error "error! number of buckets dont match for union")
  else
    result ← ctor (numBuckets lhs) (numHashes lhs);
    buckets' ← transform andb (buckets_ lhs) (buckets_ rhs) (buckets_ result);
    Ok {| num_hashes_ := num_hashes_ result; buckets_ := buckets' |}.

End BloomFilter.

(** ** double: IEEE binary64 *)

Module Double.
Import PrimFloat FloatOps SpecFloat.

Definition two_52 : float := 0x1p+52%float.

(** [std::ceil]: the least integral value not below [x].  Below [2^52] in
    magnitude, adding and subtracting [2^52] rounds [x] to an integral
    value, which is then corrected upwards; the result has the sign of [x]
    (so [ceil(-0.5)] is [-0.0]).  Every other [x] (the large ones, the
    infinities, NaN) is its own ceiling. *)
Definition ceil (x : float) : float :=
  if (abs x <? two_52)%float then
    let r := if (x <? 0)%float then ((x - two_52) + two_52)%float
             else ((x + two_52) - two_52)%float in
    let c := if (r <? x)%float then (r + 1)%float else r in
    if get_sign x then (- abs c)%float else c
  else x.

(** The conversion of an [Index] to [double], rounded to nearest: the two
    32-bit halves convert exactly and their sum is rounded once. *)
Definition of_Index (n : nat) : float :=
  let z := Z.of_nat n in
  (of_uint63 (Uint63.of_Z (z / 2 ^ 32)) * 0x1p+32
   + of_uint63 (Uint63.of_Z (z mod 2 ^ 32)))%float.

(** The integer a finite [double] truncates to (towards zero). *)
Definition truncate (x : float) : option Z :=
  match Prim2SF x with
  | S754_zero _ => Some 0
  | S754_finite negative m e =>
      let magnitude := Z.shiftl (Z.pos m) e in
      Some (if negative then - magnitude else magnitude)
  | S754_infinity _ | S754_nan => None
  end.

(** [Index(x)]: the truncated value when it is an [Index]; no value
    otherwise (negative, too large, infinite, NaN). *)
Definition to_Index (x : float) : option nat :=
  match truncate x with
  | Some z => if (0 <=? z) && (z <? 2 ^ 64) then Some (Z.to_nat z) else None
  | None => None
  end.

(** The doubles nearest to [ln 100] and [ln 2], which [std::log] returns
    at [100.0] and [2.0]. *)
Definition ln_100 : float := 0x1.26bb1bbb55516p+2%float.
Definition ln_2 : float := 0x1.62e42fefa39efp-1%float.

(** The literals [0.01] (also [1e-2]), [100.0], [0.5], [1.0], [2.0], [0.0]. *)
Definition rate_0_01 : float := 0x1.47ae147ae147bp-7%float.
Definition hundred : float := 100%float.
Definition half : float := 0.5%float.
Definition one : float := 1%float.
Definition two : float := 2%float.
Definition zero : float := 0%float.

(** [std::log] at the arguments the examples reach; NaN elsewhere. *)
Definition log_at_examples (x : float) : float :=
  if (x =? hundred)%float then ln_100
  else if (x =? two)%float then ln_2
  else if (x =? one)%float then zero
  else if (x =? half)%float then (- ln_2)%float
  else nan.

End Double.

(** [BloomFilter::make] with [Scalar = double]; [log] is the [std::log] of
    the C library. *)
Definition make_double (log : PrimFloat.float -> PrimFloat.float)
    (max_num : nat) (false_positive_error : PrimFloat.float) : outcome BloomFilter.t :=
  BloomFilter.make log Double.ceil PrimFloat.div PrimFloat.mul
                   Double.of_Index Double.to_Index Double.one Double.two
                   max_num false_positive_error.

(** A split of a hash [h] at the width [w], as the words "fixed-width bit
    split (high bits and low bits of the hash output)" describe it: the
    bits of [h] from [w] upwards and the bits of [h] below [w]. *)
Definition bit_split (w h : Z) : Z * Z := (h / 2 ^ w, h mod 2 ^ w).

(** * ReservoirSampling *)

(** The random engine together with [std::uniform_int_distribution<>]:
    [uniform_int a b g] is the number drawn from the closed range [a..b] and
    the engine after the draw.  The standard promises the range only when
    [a <= b]. *)
Class RandomEngine (G : Type) : Type := {
  uniform_int : Z -> Z -> G -> Z * G;
  uniform_int_range : forall a b g, a <= b -> a <= (uniform_int a b g).1 <= b
}.

(** A concrete engine, the multiplicative generator of [std::minstd_rand]
    with the draw reduced into the range. *)
Definition minstd_next (x : Z) : Z := (48271 * x) mod 2147483647.

#[export, refine] Instance minstd_rand : RandomEngine Z := {
  uniform_int a b g := let x := minstd_next g in (a + x mod (b - a + 1), x)
}.
Proof.
  intros a b g Hab; simpl.
  pose proof (Z.mod_pos_bound (minstd_next g) (b - a + 1)); lia.
Defined.

Module ReservoirSampling.

Section WithValue.
Context {Value G : Type} `{RandomEngine G}.

Record t : Type := mk {
  rand_gen_ : G;
  num_to_sample_ : Z;
  num_processed_ : Z;
  samples_ : list Value
}.

(** [ReservoirSampling(Index num_to_sample, std::mt19937&& rand_gen)]:
    no check of [num_to_sample] and no [throw] of its own;
    [samples_.reserve(num_to_sample)] does not change the contents of
    [samples_].  The reservation is taken to succeed; where it cannot
    ([num_to_sample] above [max_size()], or more memory than there is) the
    source throws [std::length_error] or [std::bad_alloc] and this
    definition does not describe it. *)
Definition ctor (num_to_sample : Z) (rand_gen : G) : outcome t :=
  Ok {| rand_gen_ := rand_gen; num_to_sample_ := num_to_sample;
        num_processed_ := 0; samples_ := [] |}.

Definition numToSample (s : t) : Z := num_to_sample_ s.
Definition numProcessed (s : t) : Z := num_processed_ s.
Definition samples (s : t) : list Value := samples_ s.

(** [process].  The distribution is [std::uniform_int_distribution<int>],
    so its upper bound is [numProcessed()] converted to [int]; the drawn
    [int] is converted back to [Index] where it is compared with
    [numToSample()] and where it is the argument of [at]. *)
Definition process (value : Value) (s : t) : outcome (bool * t) :=
  let b := int_of (numProcessed s) in
  if b <? 0 then Fail (distribution_bounds 0 b)
  else
    let '(random_index, rand_gen) := uniform_int 0 b (rand_gen_ s) in
    let sample_value := Index_of random_index <? numToSample s in
    samples' ← (if sample_value then
                  if numProcessed s >=? numToSample s then
                    vector_at_set (samples_ s) (Z.to_nat (Index_of random_index)) value
                  else Ok (samples_ s ++ [value])
                else Ok (samples_ s));
    Ok (sample_value,
        {| rand_gen_ := rand_gen; num_to_sample_ := num_to_sample_ s;
           num_processed_ := Index_of (num_processed_ s + 1);
           samples_ := samples' |}).

(** [process] as the documentation of the sampler prints it: the counter is
    incremented right after the draw, and the reservoir is taken to be full
    when [samples_.size() >= numToSample()]. *)
Definition process_documented (value : Value) (s : t) : outcome (bool * t) :=
  let b := int_of (numProcessed s) in
  if b <? 0 then Fail (distribution_bounds 0 b)
  else
    let '(random_index, rand_gen) := uniform_int 0 b (rand_gen_ s) in
    let num_processed := Index_of (num_processed_ s + 1) in
    let sample_value := Index_of random_index <? numToSample s in
    samples' ← (if sample_value then
                  if Z.of_nat (length (samples_ s)) >=? numToSample s then
                    vector_at_set (samples_ s) (Z.to_nat (Index_of random_index)) value
                  else Ok (samples_ s ++ [value])
                else Ok (samples_ s));
    Ok (sample_value,
        {| rand_gen_ := rand_gen; num_to_sample_ := num_to_sample_ s;
           num_processed_ := num_processed; samples_ := samples' |}).

(** A run of [process] calls, first element first; the results of the
    calls are dropped. *)
Fixpoint process_all (values : list Value) (s : t) : outcome t :=
  match values with
  | [] => Ok s
  | value :: values' => r ← process value s; process_all values' r.2
  end.

(** The state the sampler is in between two calls: the counters are not
    negative and [samples_] holds [min(num_processed_, num_to_sample_)]
    values. *)
Definition invariant (s : t) : Prop :=
  0 <= num_to_sample_ s /\ 0 <= num_processed_ s /\
  Z.of_nat (length (samples_ s)) = Z.min (num_processed_ s) (num_to_sample_ s).

End WithValue.

Arguments t : clear implicits.

End ReservoirSampling.

(** * Inputs of the repository's tests *)

(** [BloomFilter filter(20, 2)] *)
Definition filter_20_2 : BloomFilter.t :=
  {| BloomFilter.num_hashes_ := 2; BloomFilter.buckets_ := replicate 20 false |}.

(** Two filters of one shape with some buckets set. *)
Definition filter_A : BloomFilter.t :=
  {| BloomFilter.num_hashes_ := 2; BloomFilter.buckets_ := [true; false; true; false] |}.
Definition filter_B : BloomFilter.t :=
  {| BloomFilter.num_hashes_ := 2; BloomFilter.buckets_ := [false; false; true; true] |}.

Definition filter_C : BloomFilter.t :=
  {| BloomFilter.num_hashes_ := 2; BloomFilter.buckets_ := [true; true; false; false] |}.

(** A filter as [BloomFilter(0, 2)] builds it. *)
Definition filter_0_2 : BloomFilter.t :=
  {| BloomFilter.num_hashes_ := 2; BloomFilter.buckets_ := [] |}.

(** [Sampler sampler(3)], the engine seeded with 1. *)
Definition sampler_3 : ReservoirSampling.t Z Z :=
  {| ReservoirSampling.rand_gen_ := 1; ReservoirSampling.num_to_sample_ := 3;
     ReservoirSampling.num_processed_ := 0; ReservoirSampling.samples_ := [] |}.

(** * Properties of the containers and of the machine integers *)

Lemma Index_of_range z : 0 <= Index_of z < 2 ^ 64.
Proof. unfold Index_of, Index_bits. apply Z.mod_pos_bound. lia. Qed.

Lemma Index_of_small z : 0 <= z < 2 ^ 64 -> Index_of z = z.
Proof. intros Hz. unfold Index_of, Index_bits. now apply Z.mod_small. Qed.

Lemma int_of_small z : 0 <= z <= INT_MAX -> int_of z = z.
Proof.
  unfold int_of, INT_MAX. intros Hz.
  rewrite Z.mod_small; lia.
Qed.

Lemma vector_eqb_eq a b : vector_eqb a b = true <-> a = b.
Proof.
  revert b. induction a as [|x a IH]; intros [|y b]; simpl; try (split; congruence).
  rewrite andb_true_iff, IH, Bool.eqb_true_iff.
  split; [intros [-> ->]; reflexivity | intros [= -> ->]; auto].
Qed.

Lemma transform_zip op (l r d : list bool) :
  length r = length l -> length d = length l ->
  transform op l r d = Ok (zip_with op l r).
Proof.
  revert r d. induction l as [|x l IH]; intros [|y r] [|z d]; simpl; try discriminate; auto.
  intros [= Hr] [= Hd]. rewrite (IH r d Hr Hd). reflexivity.
Qed.

Lemma outcome_bind_Ok {A B} (m : outcome A) (k : A -> outcome B) b :
  m ≫= k = Ok b <-> exists a, m = Ok a /\ k a = Ok b.
Proof.
  destruct m as [a|e]; simpl; split.
  - eauto.
  - intros (a' & [= <-] & Hk); exact Hk.
  - discriminate.
  - intros (a' & [=] & _).
Qed.

(** * Properties of the Bloom filter *)

Module BloomFilterFacts.
Import BloomFilter.

Lemma nth_hash_bound hash_a hash_b n size :
  (0 < size)%nat -> 0 <= nth_hash hash_a hash_b n size < Z.of_nat size.
Proof. intros Hs. unfold nth_hash. apply Z.mod_pos_bound. lia. Qed.

Lemma nth_hash_index hash_a hash_b n size :
  (0 < size)%nat -> (Z.to_nat (nth_hash hash_a hash_b n size) < size)%nat.
Proof. intros Hs. pose proof (nth_hash_bound hash_a hash_b n size Hs). lia. Qed.

Section WithHash.
Context {Value : Type} (Hash : Value -> Z).

(** What the loop of [record] leaves behind: the length is kept and a
    bucket is set exactly when it was set before or one of the remaining
    probes falls into it. *)
Lemma record_loop_spec hash_a hash_b todo : forall n (buckets : list bool),
  (0 < length buckets)%nat ->
  exists buckets',
    record_loop hash_a hash_b n todo buckets = Ok buckets' /\
    length buckets' = length buckets /\
    forall i, buckets' !! i = Some true <->
              (buckets !! i = Some true \/
               exists m, (n <= m < n + todo)%nat /\
                         i = Z.to_nat (nth_hash hash_a hash_b m (length buckets))).
Proof.
  induction todo as [|todo IH]; intros n buckets Hlen; simpl.
  - exists buckets. split; [reflexivity|]. split; [reflexivity|].
    intros i. split; [auto|]. intros [Hi|(m & Hm & _)]; [exact Hi | lia].
  - destruct (Nat.eqb_spec (length buckets) 0) as [Hz|_]; [lia|].
    pose proof (nth_hash_index hash_a hash_b n _ Hlen) as Hidx.
    set (p := Z.to_nat (nth_hash hash_a hash_b n (length buckets))) in *.
    unfold vector_set. destruct (decide (p < length buckets)%nat) as [_|Hn]; [|lia].
    simpl.
    destruct (IH (S n) (<[p := true]> buckets)) as (b' & Hrun & Hl & Hbits).
    { rewrite length_insert. exact Hlen. }
    rewrite length_insert in Hl, Hbits.
    exists b'. split; [exact Hrun|]. split; [exact Hl|].
    intros i. rewrite Hbits. split.
    + intros [Hi|(m & Hm & ->)].
      * destruct (decide (p = i)) as [<-|Hne].
        -- right. exists n. split; [lia|reflexivity].
        -- left. rewrite list_lookup_insert_ne in Hi by exact Hne. exact Hi.
      * right. exists m. split; [lia|reflexivity].
    + intros [Hi|(m & Hm & ->)].
      * left. destruct (decide (p = i)) as [<-|Hne].
        -- apply list_lookup_insert_eq. exact Hidx.
        -- rewrite list_lookup_insert_ne by exact Hne. exact Hi.
      * destruct (decide (m = n)) as [->|Hne].
        -- left. apply list_lookup_insert_eq. exact Hidx.
        -- right. exists m. split; [lia|reflexivity].
Qed.

(** The loop of [contains] returns, and returns [true] exactly when every
    remaining probe falls into a set bucket. *)
Lemma contains_loop_spec hash_a hash_b todo : forall n (buckets : list bool),
  (0 < length buckets)%nat ->
  exists r,
    contains_loop hash_a hash_b n todo buckets = Ok r /\
    (r = true <->
     forall m, (n <= m < n + todo)%nat ->
               buckets !! Z.to_nat (nth_hash hash_a hash_b m (length buckets)) = Some true).
Proof.
  induction todo as [|todo IH]; intros n buckets Hlen; simpl.
  - exists true. split; [reflexivity|]. split; [intros _ m Hm; lia | reflexivity].
  - destruct (Nat.eqb_spec (length buckets) 0) as [Hz|_]; [lia|].
    pose proof (nth_hash_index hash_a hash_b n _ Hlen) as Hidx.
    set (p := Z.to_nat (nth_hash hash_a hash_b n (length buckets))) in *.
    unfold vector_get.
    destruct (lookup_lt_is_Some_2 buckets p Hidx) as [bucket Hb].
    rewrite Hb. simpl. destruct bucket; simpl.
    + destruct (IH (S n) buckets Hlen) as (r & Hrun & Hr).
      exists r. split; [exact Hrun|]. rewrite Hr. split.
      * intros Hall m Hm. destruct (decide (m = n)) as [->|Hne]; [exact Hb|].
        apply Hall. lia.
      * intros Hall m Hm. apply Hall. lia.
    + exists false. split; [reflexivity|]. split; [discriminate|].
      intros Hall. specialize (Hall n ltac:(lia)). fold p in Hall. congruence.
Qed.

Lemma record_spec value (f : t) :
  (0 < numBuckets f)%nat ->
  exists f',
    record Hash value f = Ok f' /\
    numHashes f' = numHashes f /\
    numBuckets f' = numBuckets f /\
    forall i, buckets_ f' !! i = Some true <->
              (buckets_ f !! i = Some true \/
               exists n, (n < numHashes f)%nat /\ i = probe Hash value n (numBuckets f)).
Proof.
  intros Hlen. unfold record, probe.
  destruct (hash Hash value) as [hash_a hash_b]; simpl.
  destruct (record_loop_spec hash_a hash_b (num_hashes_ f) 0 (buckets_ f) Hlen)
    as (b' & Hrun & Hl & Hbits).
  rewrite Hrun; simpl. eexists. split; [reflexivity|].
  unfold numHashes, numBuckets; simpl. split; [reflexivity|]. split; [exact Hl|].
  intros i. rewrite Hbits. split; (intros [Hi|(m & Hm & ->)]; [left; exact Hi|]);
    right; exists m; (split; [lia|reflexivity]).
Qed.

Lemma contains_spec value (f : t) :
  (0 < numBuckets f)%nat ->
  exists r,
    contains Hash value f = Ok r /\
    (r = true <->
     forall n, (n < numHashes f)%nat ->
               buckets_ f !! probe Hash value n (numBuckets f) = Some true).
Proof.
  intros Hlen. unfold contains, probe.
  destruct (hash Hash value) as [hash_a hash_b]; simpl.
  destruct (contains_loop_spec hash_a hash_b (num_hashes_ f) 0 (buckets_ f) Hlen)
    as (r & Hrun & Hr).
  exists r. split; [exact Hrun|]. rewrite Hr. unfold numHashes, numBuckets.
  split; intros Hall m Hm; apply Hall; lia.
Qed.

(** Without buckets the first probe divides by zero; without probes
    nothing is computed at all. *)
Lemma record_no_buckets value (f : t) :
  numBuckets f = 0%nat ->
  record Hash value f = if Nat.eqb (numHashes f) 0%nat then Ok f else Fail modulo_by_zero.
Proof.
  unfold numBuckets, numHashes, record. intros Hz.
  destruct (hash Hash value) as [hash_a hash_b].
  destruct f as [h b]; simpl in *. destruct h as [|h]; simpl; [reflexivity|].
  rewrite Hz. reflexivity.
Qed.

Lemma contains_no_buckets value (f : t) :
  numBuckets f = 0%nat ->
  contains Hash value f = if Nat.eqb (numHashes f) 0%nat then Ok true else Fail modulo_by_zero.
Proof.
  unfold numBuckets, numHashes, contains. intros Hz.
  destruct (hash Hash value) as [hash_a hash_b].
  destruct f as [h b]; simpl in *. destruct h as [|h]; simpl; [reflexivity|].
  rewrite Hz. reflexivity.
Qed.

Lemma contains_true_iff value (f : t) :
  contains Hash value f = Ok true <->
  (numHashes f = 0%nat \/
   ((0 < numBuckets f)%nat /\
    forall n, (n < numHashes f)%nat ->
              buckets_ f !! probe Hash value n (numBuckets f) = Some true)).
Proof.
  destruct (Nat.eq_dec (numBuckets f) 0%nat) as [Hz|Hnz].
  - rewrite (contains_no_buckets value f Hz).
    destruct (Nat.eqb_spec (numHashes f) 0%nat) as [Hh|Hh]; split; auto.
    + intros [= ]. 
    + intros [?|[? _]]; [congruence|lia].
  - destruct (contains_spec value f ltac:(lia)) as (r & Hrun & Hr).
    rewrite Hrun. split.
    + intros [= ->]. right. split; [lia|]. now apply Hr.
    + intros [Hh|[_ Hall]]; f_equal; apply Hr; [|exact Hall].
      intros n Hn. lia.
Qed.

Lemma record_all_spec values : forall (f : t),
  (0 < numBuckets f)%nat ->
  exists f',
    record_all Hash values f = Ok f' /\
    numHashes f' = numHashes f /\
    numBuckets f' = numBuckets f /\
    forall i, buckets_ f' !! i = Some true <->
              (buckets_ f !! i = Some true \/
               exists value n, value ∈ values /\ (n < numHashes f)%nat /\
                               i = probe Hash value n (numBuckets f)).
Proof.
  induction values as [|value values IH]; intros f Hlen; simpl.
  - exists f. repeat split; auto.
    intros [Hi|(value & n & Hin & _)]; [exact Hi|]. inversion Hin.
  - destruct (record_spec value f Hlen) as (f1 & Hrun & Hh & Hb & Hbits).
    rewrite Hrun; simpl.
    destruct (IH f1 ltac:(lia)) as (f2 & Hrun2 & Hh2 & Hb2 & Hbits2).
    exists f2. split; [exact Hrun2|]. split; [congruence|]. split; [congruence|].
    intros i. rewrite Hbits2, Hbits, Hh, Hb. split.
    + intros [[Hi|(n & Hn & ->)]|(w & n & Hin & Hn & ->)].
      * left; exact Hi.
      * right. exists value, n. split; [left|auto].
      * right. exists w, n. split; [right; exact Hin|auto].
    + intros [Hi|(w & n & Hin & Hn & ->)]; [left; left; exact Hi|].
      apply elem_of_cons in Hin as [->|Hin].
      * left; right. exists n. auto.
      * right. exists w, n. auto.
Qed.

Lemma record_all_app values values' (f : t) :
  record_all Hash (values ++ values') f =
  record_all Hash values f ≫= record_all Hash values'.
Proof.
  revert f. induction values as [|value values IH]; intros f; simpl; [reflexivity|].
  destruct (record Hash value f) as [f1|e]; simpl; [apply IH|reflexivity].
Qed.

(** C1.  No false negatives.  On a filter with at least one bucket,
    [record value] returns a filter on which [contains value] is [true],
    and after any further run of [record] calls [contains value] is still
    [true]; no call of [record] turns a set bucket back to unset. *)
Theorem no_false_negatives value (f : t) :
  (0 < numBuckets f)%nat ->
  exists f',
    record Hash value f = Ok f' /\
    contains Hash value f' = Ok true /\
    (forall i, buckets_ f !! i = Some true -> buckets_ f' !! i = Some true) /\
    forall later, exists f'',
      record_all Hash later f' = Ok f'' /\
      contains Hash value f'' = Ok true /\
      (forall i, buckets_ f' !! i = Some true -> buckets_ f'' !! i = Some true).
Proof.
  intros Hlen.
  destruct (record_spec value f Hlen) as (f1 & Hrun & Hh & Hb & Hbits).
  exists f1. split; [exact Hrun|].
  assert (Hprobed : forall n, (n < numHashes f1)%nat ->
            buckets_ f1 !! probe Hash value n (numBuckets f1) = Some true).
  { intros n Hn. apply Hbits. right. exists n. split; [lia|congruence]. }
  split; [apply contains_true_iff; right; split; [lia|exact Hprobed]|].
  split; [intros i Hi; apply Hbits; left; exact Hi|].
  intros later.
  destruct (record_all_spec later f1 ltac:(lia)) as (f2 & Hrun2 & Hh2 & Hb2 & Hbits2).
  exists f2. split; [exact Hrun2|].
  split; [|intros i Hi; apply Hbits2; left; exact Hi].
  apply contains_true_iff. right. split; [lia|].
  intros n Hn. apply Hbits2. left. rewrite Hb2. apply Hprobed. lia.
Qed.

(** C10.  The constructor takes [num_buckets = 0] without complaint.  On a
    filter with at least one bucket [record] and [contains] return and
    every probe is a valid position of [buckets_]; on a filter without
    buckets whose [numHashes] is positive both divide by zero.  So
    [record] and [contains] return exactly when [numBuckets > 0] (or no
    probe is made at all). *)
Theorem modulo_needs_buckets :
  (forall num_hashes, exists f,
      ctor 0 num_hashes = Ok f /\ numBuckets f = 0%nat /\ numHashes f = num_hashes) /\
  (forall value (f : t), (0 < numBuckets f)%nat ->
      is_Ok (record Hash value f) /\ is_Ok (contains Hash value f) /\
      forall n, (probe Hash value n (numBuckets f) < numBuckets f)%nat) /\
  (forall value (f : t), numBuckets f = 0%nat -> (0 < numHashes f)%nat ->
      record Hash value f = Fail modulo_by_zero /\
      contains Hash value f = Fail modulo_by_zero) /\
  (forall value (f : t),
      (is_Ok (record Hash value f) <-> (0 < numBuckets f)%nat \/ numHashes f = 0%nat) /\
      (is_Ok (contains Hash value f) <-> (0 < numBuckets f)%nat \/ numHashes f = 0%nat)).
Proof.
  split; [|split; [|split]].
  - intros num_hashes. eexists. split; [reflexivity|]. split; reflexivity.
  - intros value f Hlen.
    destruct (record_spec value f Hlen) as (f1 & Hrun & _).
    destruct (contains_spec value f Hlen) as (r & Hc & _).
    split; [exists f1; exact Hrun|]. split; [exists r; exact Hc|].
    intros n. apply nth_hash_index. exact Hlen.
  - intros value f Hz Hh.
    rewrite (record_no_buckets value f Hz), (contains_no_buckets value f Hz).
    destruct (Nat.eqb_spec (numHashes f) 0%nat); [lia|]. split; reflexivity.
  - intros value f.
    destruct (Nat.eq_dec (numBuckets f) 0%nat) as [Hz|Hnz].
    + rewrite (record_no_buckets value f Hz), (contains_no_buckets value f Hz).
      destruct (Nat.eqb_spec (numHashes f) 0%nat) as [Hh|Hh].
      * split; (split; [intros _; right; exact Hh | intros _; eexists; reflexivity]).
      * split; (split; [intros [? [=]] | intros [?|?]; lia]).
    + destruct (record_spec value f ltac:(lia)) as (f1 & Hrun & _).
      destruct (contains_spec value f ltac:(lia)) as (r & Hc & _).
      split; (split; [intros _; left; lia | intros _]);
        [exists f1; exact Hrun | exists r; exact Hc].
Qed.

(** The bits of the two base hashes, read off the hash [h] of the value:
    [hash_a] is [h << shift_by], [hash_b] is [h >> shift_by]. *)
Lemma hash_bits value :
  let h := Index_of (Hash value) in
  (forall i, 0 <= i ->
     Z.testbit (hash Hash value).1 i =
     (i <? Index_bits) && negb (i <? shift_by) && Z.testbit h (i - shift_by)) /\
  (forall i, 0 <= i ->
     Z.testbit (hash Hash value).2 i = Z.testbit h (i + shift_by)).
Proof.
  intros h. unfold hash; simpl. fold h.
  assert (Hs : shift_by = 4) by reflexivity.
  pose proof (Index_of_range (Hash value)) as Hh. fold h in Hh.
  split; intros i Hi.
  - unfold Index_of at 1. rewrite Z.testbit_mod_pow2 by (unfold Index_bits; lia).
    rewrite Z.shiftl_spec by exact Hi.
    destruct (Z.ltb_spec i shift_by) as [Hlt|Hge]; simpl.
    + rewrite Z.testbit_neg_r by lia. destruct (i <? Index_bits); reflexivity.
    + rewrite andb_true_r. reflexivity.
  - rewrite Index_of_small.
    + apply Z.shiftr_spec. exact Hi.
    + rewrite Z.shiftr_div_pow2 by lia. rewrite Hs.
      split; [apply Z.div_pos; lia|].
      apply Z.div_lt_upper_bound; lia.
Qed.

Lemma nth_hash_formula hash_a hash_b n size :
  nth_hash hash_a hash_b n size
  = ((hash_a + Z.of_nat n * hash_b) mod 2 ^ 64) mod Z.of_nat size.
Proof.
  unfold nth_hash, Index_of, Index_bits. now rewrite Zplus_mod_idemp_r.
Qed.

(** C5, amended to what the code does.  [record] takes one hash [h] of the
    value and shifts it both ways by the fixed width 4 ([sizeof(Index) / 2]):
    [hash_a = (h << 4) mod 2^64] holds the low 60 bits of [h], moved up by
    4, and [hash_b = h >> 4] holds the high 60 bits of [h]; the two share
    the bits 4..59 of [h], so they are not a split of [h].  For every
    [n < numHashes], [record] sets the bucket at
    [((hash_a + n * hash_b) mod 2^64) mod numBuckets] and changes no other
    bucket; [contains] is [true] exactly when the buckets at these same
    positions are all set. *)
Theorem double_hashing_probes value (f : t) :
  let h := Hash value mod 2 ^ 64 in
  let hash_a := (h * 2 ^ 4) mod 2 ^ 64 in
  let hash_b := h / 2 ^ 4 in
  let position (n : nat) :=
    ((hash_a + Z.of_nat n * hash_b) mod 2 ^ 64) mod Z.of_nat (numBuckets f) in
  hash Hash value = (hash_a, hash_b) /\
  (forall i, 0 <= i ->
     Z.testbit hash_a i = (i <? 64) && negb (i <? 4) && Z.testbit h (i - 4)) /\
  (forall i, 0 <= i -> Z.testbit hash_b i = Z.testbit h (i + 4)) /\
  ((0 < numBuckets f)%nat ->
   exists f',
     record Hash value f = Ok f' /\
     numHashes f' = numHashes f /\ numBuckets f' = numBuckets f /\
     forall i : nat,
       buckets_ f' !! i = Some true <->
       (buckets_ f !! i = Some true \/
        exists n, (n < numHashes f)%nat /\ Z.of_nat i = position n)) /\
  ((0 < numBuckets f)%nat ->
   exists r,
     contains Hash value f = Ok r /\
     (r = true <->
      forall n, (n < numHashes f)%nat ->
        buckets_ f !! Z.to_nat (position n) = Some true)).
Proof.
  intros h hash_a hash_b position.
  assert (Hhash : hash Hash value = (hash_a, hash_b)).
  { unfold hash. change shift_by with 4. change (Index_of (Hash value)) with h.
    rewrite Z.shiftl_mul_pow2, Z.shiftr_div_pow2 by lia.
    f_equal. apply Index_of_small.
    pose proof (Z.mod_pos_bound (Hash value) (2 ^ 64) ltac:(lia)) as Hh. fold h in Hh.
    split; [apply Z.div_pos; lia | apply Z.div_lt_upper_bound; lia]. }
  assert (Hpos : forall n, position n
                 = nth_hash (hash Hash value).1 (hash Hash value).2 n (numBuckets f)).
  { intros n. rewrite Hhash, nth_hash_formula. reflexivity. }
  split; [exact Hhash|].
  destruct (hash_bits value) as [Ha Hb]. rewrite Hhash in Ha, Hb. simpl in Ha, Hb.
  split; [exact Ha|]. split; [exact Hb|].
  split; intros Hlen.
  - destruct (record_spec value f Hlen) as (f' & Hrun & Hh & Hbk & Hbits).
    exists f'. split; [exact Hrun|]. split; [exact Hh|]. split; [exact Hbk|].
    intros i. rewrite Hbits. unfold probe.
    split; (intros [Hi|(n & Hn & Heq)]; [left; exact Hi|]); right; exists n;
      (split; [exact Hn|]).
    + rewrite Hpos. subst i.
      pose proof (nth_hash_bound (hash Hash value).1 (hash Hash value).2 n _ Hlen). lia.
    + rewrite Hpos in Heq. lia.
  - destruct (contains_spec value f Hlen) as (r & Hrun & Hr).
    exists r. split; [exact Hrun|]. rewrite Hr. unfold probe.
    split; intros Hall n Hn; specialize (Hall n Hn).
    + rewrite Hpos. exact Hall.
    + rewrite Hpos in Hall. exact Hall.
Qed.

End WithHash.

(** ** Equality, union and intersection *)

Lemma eqb_eq (f g : t) : eqb f g = true <-> f = g.
Proof.
  unfold eqb. rewrite andb_true_iff, Nat.eqb_eq, vector_eqb_eq.
  destruct f, g; simpl. split; [intros [-> ->]; reflexivity | intros [= -> ->]; auto].
Qed.

Lemma filterUnion_spec (lhs rhs : t) :
  numHashes lhs = numHashes rhs -> numBuckets lhs = numBuckets rhs ->
  filterUnion lhs rhs =
  Ok {| num_hashes_ := num_hashes_ lhs;
        buckets_ := zip_with orb (buckets_ lhs) (buckets_ rhs) |}.
Proof.
  intros Hh Hb. unfold filterUnion.
  rewrite (proj2 (Nat.eqb_eq _ _) Hh), (proj2 (Nat.eqb_eq _ _) Hb). simpl.
  rewrite transform_zip; [reflexivity| |].
  - symmetry. exact Hb.
  - apply length_replicate.
Qed.

Lemma filterIntersection_spec (lhs rhs : t) :
  numHashes lhs = numHashes rhs -> numBuckets lhs = numBuckets rhs ->
  filterIntersection lhs rhs =
  Ok {| num_hashes_ := num_hashes_ lhs;
        buckets_ := zip_with andb (buckets_ lhs) (buckets_ rhs) |}.
Proof.
  intros Hh Hb. unfold filterIntersection.
  rewrite (proj2 (Nat.eqb_eq _ _) Hh), (proj2 (Nat.eqb_eq _ _) Hb). simpl.
  rewrite transform_zip; [reflexivity| |].
  - symmetry. exact Hb.
  - apply length_replicate.
Qed.

Lemma filterUnion_throws (lhs rhs : t) :
  precondition_violation (filterUnion lhs rhs) <->
  (numHashes lhs <> numHashes rhs \/ numBuckets lhs <> numBuckets rhs).
Proof.
  destruct (Nat.eq_dec (numHashes lhs) (numHashes rhs)) as [Hh|Hh];
    [destruct (Nat.eq_dec (numBuckets lhs) (numBuckets rhs)) as [Hb|Hb]|].
  - rewrite (filterUnion_spec lhs rhs Hh Hb).
    split; [intros [what [=]] | intros [?|?]; congruence].
  - unfold filterUnion.
    rewrite (proj2 (Nat.eqb_eq _ _) Hh), (proj2 (Nat.eqb_neq _ _) Hb). simpl.
    split; [auto | intros _; eexists; reflexivity].
  - unfold filterUnion. rewrite (proj2 (Nat.eqb_neq _ _) Hh). simpl.
    split; [auto | intros _; eexists; reflexivity].
Qed.

Lemma filterIntersection_throws (lhs rhs : t) :
  precondition_violation (filterIntersection lhs rhs) <->
  (numHashes lhs <> numHashes rhs \/ numBuckets lhs <> numBuckets rhs).
Proof.
  destruct (Nat.eq_dec (numHashes lhs) (numHashes rhs)) as [Hh|Hh];
    [destruct (Nat.eq_dec (numBuckets lhs) (numBuckets rhs)) as [Hb|Hb]|].
  - rewrite (filterIntersection_spec lhs rhs Hh Hb).
    split; [intros [what [=]] | intros [?|?]; congruence].
  - unfold filterIntersection.
    rewrite (proj2 (Nat.eqb_eq _ _) Hh), (proj2 (Nat.eqb_neq _ _) Hb). simpl.
    split; [auto | intros _; eexists; reflexivity].
  - unfold filterIntersection. rewrite (proj2 (Nat.eqb_neq _ _) Hh). simpl.
    split; [auto | intros _; eexists; reflexivity].
Qed.

Lemma lookup_zip_with_bool (op : bool -> bool -> bool) (l r : list bool) (i : nat) x y :
  l !! i = Some x -> r !! i = Some y -> zip_with op l r !! i = Some (op x y).
Proof. intros Hl Hr. rewrite lookup_zip_with, Hl; simpl. rewrite Hr. reflexivity. Qed.

(** C6.  [filterUnion] and [filterIntersection] throw their
    [std::runtime_error] exactly when the two filters differ in [numHashes]
    or in [numBuckets].  Otherwise they return a filter with the [numHashes]
    and [numBuckets] of the arguments whose bucket at every position is the
    [||] (union) or the [&&] (intersection) of the arguments' buckets there.
    The arguments are values of the model and are not changed. *)
Theorem union_intersection_contract (a b : t) :
  (precondition_violation (filterUnion a b) <->
   (numHashes a <> numHashes b \/ numBuckets a <> numBuckets b)) /\
  (precondition_violation (filterIntersection a b) <->
   (numHashes a <> numHashes b \/ numBuckets a <> numBuckets b)) /\
  (numHashes a = numHashes b /\ numBuckets a = numBuckets b ->
   exists u v : t,
     filterUnion a b = Ok u /\ filterIntersection a b = Ok v /\
     numHashes u = numHashes a /\ numBuckets u = numBuckets a /\
     numHashes v = numHashes a /\ numBuckets v = numBuckets a /\
     forall (i : nat) (x y : bool),
       buckets_ a !! i = Some x -> buckets_ b !! i = Some y ->
       buckets_ u !! i = Some (orb x y) /\ buckets_ v !! i = Some (andb x y)).
Proof.
  split; [apply filterUnion_throws|]. split; [apply filterIntersection_throws|].
  intros [Hh Hb].
  rewrite (filterUnion_spec a b Hh Hb), (filterIntersection_spec a b Hh Hb).
  do 2 eexists. split; [reflexivity|]. split; [reflexivity|].
  unfold numHashes, numBuckets in *; simpl.
  rewrite !length_zip_with, <- Hb.
  repeat split; try lia; now apply lookup_zip_with_bool.
Qed.

Lemma zip_with_bool_comm (op : bool -> bool -> bool) (l r : list bool) :
  (forall x y, op x y = op y x) -> zip_with op l r = zip_with op r l.
Proof.
  intros Hop. revert r. induction l as [|x l IH]; intros [|y r]; simpl; try reflexivity.
  rewrite Hop, IH. reflexivity.
Qed.

(** Two bucket vectors of one length with the same set buckets are equal. *)
Lemma buckets_ext (l r : list bool) :
  length l = length r ->
  (forall i, l !! i = Some true <-> r !! i = Some true) ->
  l = r.
Proof.
  intros Hlen Hbits. apply list_eq. intros i.
  destruct (l !! i) as [x|] eqn:Hl, (r !! i) as [y|] eqn:Hr.
  - destruct x, y; try reflexivity.
    + apply Hbits in Hl. congruence.
    + apply Hbits in Hr. congruence.
  - apply lookup_lt_Some in Hl. apply lookup_ge_None in Hr. lia.
  - apply lookup_ge_None in Hl. apply lookup_lt_Some in Hr. lia.
  - reflexivity.
Qed.

Section Algebra.
Context {Value : Type} (Hash : Value -> Z).

(** C7.  For two filters of one shape both operations return, the
    results with the arguments swapped are equal under [==], and the
    union contains every value one of the arguments contains. *)
Theorem union_intersection_algebra (A B : t) (x : Value) :
  numHashes A = numHashes B -> numBuckets A = numBuckets B ->
  exists U U' I I' : t,
    filterUnion A B = Ok U /\ filterUnion B A = Ok U' /\ eqb U U' = true /\
    filterIntersection A B = Ok I /\ filterIntersection B A = Ok I' /\
    eqb I I' = true /\
    (contains Hash x A = Ok true \/ contains Hash x B = Ok true ->
     contains Hash x U = Ok true).
Proof.
  intros Hh Hb.
  rewrite (filterUnion_spec A B Hh Hb), (filterUnion_spec B A (eq_sym Hh) (eq_sym Hb)).
  rewrite (filterIntersection_spec A B Hh Hb),
          (filterIntersection_spec B A (eq_sym Hh) (eq_sym Hb)).
  do 4 eexists.
  do 2 (split; [reflexivity|]).
  split.
  { apply eqb_eq. unfold numHashes in Hh. rewrite Hh. f_equal.
    apply zip_with_bool_comm. intros [] []; reflexivity. }
  do 2 (split; [reflexivity|]).
  split.
  { apply eqb_eq. unfold numHashes in Hh. rewrite Hh. f_equal.
    apply zip_with_bool_comm. intros [] []; reflexivity. }
  set (U := {| num_hashes_ := num_hashes_ A;
               buckets_ := zip_with orb (buckets_ A) (buckets_ B) |}).
  assert (HU : numBuckets U = numBuckets A).
  { unfold numBuckets in *; simpl. rewrite length_zip_with. lia. }
  rewrite !contains_true_iff. rewrite HU. change (numHashes U) with (numHashes A).
  intros [[Hz|[Hlen Hall]]|[Hz|[Hlen Hall]]].
  - left; exact Hz.
  - right. split; [exact Hlen|]. intros n Hn.
    specialize (Hall n Hn).
    destruct (lookup_lt_is_Some_2 (buckets_ B) (probe Hash x n (numBuckets A))) as [y Hy].
    { apply lookup_lt_Some in Hall. unfold numBuckets in Hb. lia. }
    simpl. rewrite (lookup_zip_with_bool orb _ _ _ _ _ Hall Hy). reflexivity.
  - left; congruence.
  - right. split; [lia|]. intros n Hn. rewrite <- Hh in Hall. rewrite <- Hb in Hall.
    specialize (Hall n Hn).
    destruct (lookup_lt_is_Some_2 (buckets_ A) (probe Hash x n (numBuckets A))) as [y Hy].
    { apply lookup_lt_Some in Hall. unfold numBuckets in Hb. lia. }
    simpl. rewrite (lookup_zip_with_bool orb _ _ _ _ _ Hy Hall).
    destruct y; reflexivity.
Qed.

Lemma record_all_no_buckets values (f : t) :
  numBuckets f = 0%nat ->
  record_all Hash values f =
  match values with
  | [] => Ok f
  | _ :: _ => if Nat.eqb (numHashes f) 0%nat then Ok f else Fail modulo_by_zero
  end.
Proof.
  intros Hz. induction values as [|value values IH]; simpl; [reflexivity|].
  rewrite (record_no_buckets Hash value f Hz).
  destruct (Nat.eqb (numHashes f) 0%nat); simpl; [|reflexivity].
  rewrite IH. destruct values; reflexivity.
Qed.

(** Recording is insensitive to the order of the values. *)
Lemma record_all_Permutation values values' (f f' : t) :
  Permutation values values' ->
  record_all Hash values f = Ok f' -> record_all Hash values' f = Ok f'.
Proof.
  intros Hperm Hrun.
  destruct (Nat.eq_dec (numBuckets f) 0%nat) as [Hz|Hnz].
  - rewrite (record_all_no_buckets values f Hz) in Hrun.
    rewrite (record_all_no_buckets values' f Hz).
    destruct values as [|v vs], values' as [|w ws]; try exact Hrun.
    + apply Permutation_nil in Hperm. discriminate.
    + symmetry in Hperm. apply Permutation_nil in Hperm. discriminate.
  - destruct (record_all_spec Hash values f ltac:(lia)) as (f1 & Hr1 & Hh1 & Hb1 & Hbits1).
    destruct (record_all_spec Hash values' f ltac:(lia)) as (f2 & Hr2 & Hh2 & Hb2 & Hbits2).
    rewrite Hr2. rewrite Hrun in Hr1. injection Hr1 as <-. f_equal.
    destruct f' as [h1 b1], f2 as [h2 b2].
    unfold numHashes, numBuckets in *; simpl in *. subst h1 h2. f_equal.
    apply buckets_ext; [congruence|].
    intros i. rewrite Hbits1, Hbits2.
    split; (intros [Hi|(v & n & Hin & Hn & ->)]; [left; exact Hi|]);
      right; exists v, n; (split; [|auto]).
    + rewrite Hperm. exact Hin.
    + rewrite <- Hperm. exact Hin.
Qed.

(** C8.  [==] holds exactly when the two filters have the same
    [numHashes] and the same bucket at every position (so also the same
    number of buckets).  Hence two filters built by the constructor from
    the same arguments are equal; recording the same values, in any
    order, into two equal filters gives equal filters; and a [record]
    that changes the buckets of one of two equal filters makes them
    unequal. *)
Theorem equality_contract :
  (forall f g : t,
      (eqb f g = true <->
       numHashes f = numHashes g /\ forall i : nat, buckets_ f !! i = buckets_ g !! i) /\
      (eqb f g = true -> numBuckets f = numBuckets g)) /\
  (forall num_buckets num_hashes (f g : t),
      ctor num_buckets num_hashes = Ok f -> ctor num_buckets num_hashes = Ok g ->
      eqb f g = true) /\
  (forall values values' (f g : t),
      Permutation values values' -> eqb f g = true ->
      (forall f', record_all Hash values f = Ok f' ->
                  exists g', record_all Hash values' g = Ok g' /\ eqb f' g' = true) /\
      ((0 < numBuckets f)%nat -> is_Ok (record_all Hash values f))) /\
  (forall value (f g f' : t),
      eqb f g = true -> record Hash value f = Ok f' -> buckets_ f' <> buckets_ f ->
      eqb f' g = false).
Proof.
  split; [|split; [|split]].
  - intros f g. split.
    + rewrite eqb_eq. split.
      * intros ->. split; reflexivity.
      * intros [Hh Hb]. destruct f, g; unfold numHashes in Hh; simpl in *.
        f_equal; [exact Hh | apply list_eq; exact Hb].
    + intros Heq. apply eqb_eq in Heq. subst. reflexivity.
  - intros nb nh f g Hf Hg. apply eqb_eq. congruence.
  - intros values values' f g Hperm Heq. apply eqb_eq in Heq. subst g. split.
    + intros f' Hrun. exists f'. split; [|apply eqb_eq; reflexivity].
      exact (record_all_Permutation values values' f f' Hperm Hrun).
    + intros Hlen. destruct (record_all_spec Hash values f Hlen) as (f1 & Hr & _).
      exists f1. exact Hr.
  - intros value f g f' Heq Hrun Hne. apply eqb_eq in Heq. subst g.
    destruct (eqb f' f) eqn:E; [|reflexivity].
    apply eqb_eq in E. subst f'. contradiction.
Qed.

End Algebra.

Section Consequences.
Context {Value : Type} (Hash : Value -> Z).

(** Recording a value a second time changes nothing. *)
Theorem record_idempotent value (f f' : t) :
  record Hash value f = Ok f' -> record Hash value f' = Ok f'.
Proof.
  intros Hrun.
  destruct (Nat.eq_dec (numBuckets f) 0%nat) as [Hz|Hnz].
  - rewrite (record_no_buckets Hash value f Hz) in Hrun.
    destruct (Nat.eqb (numHashes f) 0%nat) eqn:E; [|discriminate].
    injection Hrun as <-. rewrite (record_no_buckets Hash value f Hz), E. reflexivity.
  - destruct (record_spec Hash value f ltac:(lia)) as (f1 & Hr1 & Hh1 & Hb1 & Hbits1).
    rewrite Hrun in Hr1. injection Hr1 as <-.
    destruct (record_spec Hash value f' ltac:(lia)) as (f2 & Hr2 & Hh2 & Hb2 & Hbits2).
    rewrite Hr2. f_equal. destruct f' as [h1 b1], f2 as [h2 b2].
    unfold numHashes, numBuckets in *; simpl in *. subst h2. f_equal.
    apply buckets_ext; [exact Hb2|].
    intros i. rewrite Hbits2. split; [|auto].
    intros [Hi|(n & Hn & ->)]; [exact Hi|].
    apply Hbits1. right. exists n. split; [lia|congruence].
Qed.

(** The union of two filters grown from one filter is the filter grown by
    both lists of values. *)
Theorem union_is_recording_both values values' (f a b : t) :
  (0 < numBuckets f)%nat ->
  record_all Hash values f = Ok a -> record_all Hash values' f = Ok b ->
  exists u c : t,
    filterUnion a b = Ok u /\ record_all Hash (values ++ values') f = Ok c /\
    eqb u c = true.
Proof.
  intros Hlen Ha Hb.
  destruct (record_all_spec Hash values f Hlen) as (a' & Ha' & Hha & Hba & Hbitsa).
  destruct (record_all_spec Hash values' f Hlen) as (b' & Hb' & Hhb & Hbb & Hbitsb).
  destruct (record_all_spec Hash (values ++ values') f Hlen)
    as (c & Hc & Hhc & Hbc & Hbitsc).
  rewrite Ha in Ha'. injection Ha' as <-. rewrite Hb in Hb'. injection Hb' as <-.
  rewrite (filterUnion_spec a b) by congruence.
  do 2 eexists. split; [reflexivity|]. split; [exact Hc|].
  apply eqb_eq. destruct c as [hc bc]. unfold numHashes, numBuckets in *; simpl in *.
  f_equal; [congruence|].
  apply buckets_ext; [rewrite length_zip_with; lia|].
  intros i. rewrite Hbitsc. split.
  - intros Hu. apply lookup_zip_with_Some in Hu as (x & y & Hor & Hx & Hy).
    destruct x.
    + apply Hbitsa in Hx as [Hi|(v & n & Hin & Hn & ->)]; [left; exact Hi|].
      right. exists v, n. split; [apply elem_of_app; left; exact Hin|auto].
    + destruct y; [|discriminate].
      apply Hbitsb in Hy as [Hi|(v & n & Hin & Hn & ->)]; [left; exact Hi|].
      right. exists v, n. split; [apply elem_of_app; right; exact Hin|auto].
  - intros Hc'.
    assert (Hi : (i < length (buckets_ f))%nat).
    { destruct Hc' as [Hi|(v & n & _ & _ & ->)];
        [now apply lookup_lt_Some in Hi | now apply nth_hash_index]. }
    destruct (lookup_lt_is_Some_2 (buckets_ a) i ltac:(lia)) as [x Hx].
    destruct (lookup_lt_is_Some_2 (buckets_ b) i ltac:(lia)) as [y Hy].
    rewrite (lookup_zip_with_bool orb _ _ _ _ _ Hx Hy). f_equal.
    destruct Hc' as [Hf|(v & n & Hin & Hn & ->)].
    + assert (Hxt : buckets_ a !! i = Some true) by (apply Hbitsa; left; exact Hf).
      rewrite Hx in Hxt. injection Hxt as ->. reflexivity.
    + apply elem_of_app in Hin as [Hin|Hin].
      * assert (Hxt : buckets_ a !! probe Hash v n (length (buckets_ f)) = Some true).
        { apply Hbitsa. right. exists v, n. auto. }
        rewrite Hx in Hxt. injection Hxt as ->. reflexivity.
      * assert (Hyt : buckets_ b !! probe Hash v n (length (buckets_ f)) = Some true).
        { apply Hbitsb. right. exists v, n. auto. }
        rewrite Hy in Hyt. injection Hyt as ->. apply orb_true_r.
Qed.

(** What the intersection contains, both arguments contain. *)
Theorem intersection_contains_both (A B I : t) (x : Value) :
  filterIntersection A B = Ok I -> contains Hash x I = Ok true ->
  contains Hash x A = Ok true /\ contains Hash x B = Ok true.
Proof.
  intros HI Hc.
  destruct (Nat.eq_dec (numHashes A) (numHashes B)) as [Hh|Hh];
    [destruct (Nat.eq_dec (numBuckets A) (numBuckets B)) as [Hb|Hb]|].
  - rewrite (filterIntersection_spec A B Hh Hb) in HI. injection HI as <-.
    rewrite contains_true_iff in Hc. rewrite !contains_true_iff.
    unfold numHashes, numBuckets in *; simpl in *. rewrite length_zip_with in Hc.
    destruct Hc as [Hz|[Hlen Hall]]; [split; left; congruence|].
    replace (length (buckets_ A) `min` length (buckets_ B))%nat
      with (length (buckets_ A)) in * by lia.
    split; right; (split; [lia|]); intros n Hn;
      (specialize (Hall n ltac:(lia));
       apply lookup_zip_with_Some in Hall as (a & b & Hand & Ha & Hb');
       symmetry in Hand; apply andb_true_iff in Hand as [-> ->]).
    + exact Ha.
    + rewrite <- Hb. exact Hb'.
  - exfalso. assert (Hthrow : precondition_violation (filterIntersection A B))
      by (apply filterIntersection_throws; right; exact Hb).
    destruct Hthrow as [what Hw]. congruence.
  - exfalso. assert (Hthrow : precondition_violation (filterIntersection A B))
      by (apply filterIntersection_throws; left; exact Hh).
    destruct Hthrow as [what Hw]. congruence.
Qed.

End Consequences.

(** ** The theorems at the inputs of the tests *)

Lemma no_false_negatives_witness :
  (0 < numBuckets filter_20_2)%nat /\
  exists f', record std_hash_int 230 filter_20_2 = Ok f' /\
             contains std_hash_int 230 f' = Ok true.
Proof.
  split; [unfold numBuckets; simpl; lia|].
  destruct (no_false_negatives std_hash_int 230 filter_20_2) as (f' & Hr & Hc & _).
  - unfold numBuckets; simpl; lia.
  - exists f'. split; assumption.
Defined.

Lemma modulo_needs_buckets_witness :
  numBuckets filter_0_2 = 0%nat /\ (0 < numHashes filter_0_2)%nat /\
  record std_hash_int 7 filter_0_2 = Fail modulo_by_zero /\
  contains std_hash_int 7 filter_0_2 = Fail modulo_by_zero.
Proof.
  split; [reflexivity|]. split; [unfold numHashes; simpl; lia|].
  apply (proj1 (proj2 (proj2 (modulo_needs_buckets std_hash_int))) 7 filter_0_2).
  - reflexivity.
  - unfold numHashes; simpl; lia.
Defined.

Lemma double_hashing_probes_witness :
  (0 < numBuckets filter_20_2)%nat /\
  hash std_hash_int 230 = (3680, 14) /\
  exists f',
    record std_hash_int 230 filter_20_2 = Ok f' /\
    buckets_ f' !! 0%nat = Some true /\ buckets_ f' !! 14%nat = Some true.
Proof.
  assert (Hlen : (0 < numBuckets filter_20_2)%nat) by (unfold numBuckets; simpl; lia).
  split; [exact Hlen|].
  destruct (double_hashing_probes std_hash_int 230 filter_20_2)
    as (Hhash & _ & _ & Hrecord & _).
  split; [exact Hhash|].
  destruct (Hrecord Hlen) as (f' & Hr & _ & _ & Hbits).
  exists f'. split; [exact Hr|]. split; apply Hbits; right.
  - exists 0%nat. split; [unfold numHashes; simpl; lia | reflexivity].
  - exists 1%nat. split; [unfold numHashes; simpl; lia | reflexivity].
Defined.

(** C5 does not hold at this input.  The hashes 230 and 198 differ in the
    one bit 5, and both base hashes differ with it: bit 5 of the hash goes
    into [hash_a] and into [hash_b], where a split puts every bit into one
    part.  And at the hash 230 no width [w] makes the two base hashes the
    high and the low bits of the hash, in either order. *)
Lemma hash_parts_overlap :
  Z.lxor 230 198 = 2 ^ 5 /\
  (hash std_hash_int 230).1 <> (hash std_hash_int 198).1 /\
  (hash std_hash_int 230).2 <> (hash std_hash_int 198).2 /\
  forall w, 0 <= w ->
    hash std_hash_int 230 <> bit_split w 230 /\
    hash std_hash_int 230 <> ((bit_split w 230).2, (bit_split w 230).1).
Proof.
  split; [reflexivity|]. split; [vm_compute; discriminate|].
  split; [vm_compute; discriminate|].
  intros w Hw. change (hash std_hash_int 230) with (3680, 14). unfold bit_split; simpl.
  assert (Hpow : 0 < 2 ^ w) by (apply Z.pow_pos_nonneg; lia).
  assert (Hdiv : 230 / 2 ^ w <= 230).
  { apply Z.div_le_upper_bound; nia. }
  assert (Hmod : 230 mod 2 ^ w <= 230) by (apply Z.mod_le; lia).
  split; intros [= Ha Hb]; lia.
Qed.

Lemma union_intersection_contract_witness :
  numHashes filter_A = numHashes filter_B /\ numBuckets filter_A = numBuckets filter_B /\
  exists u v : t,
    filterUnion filter_A filter_B = Ok u /\ filterIntersection filter_A filter_B = Ok v /\
    buckets_ u !! 3%nat = Some true /\ buckets_ v !! 3%nat = Some false.
Proof.
  split; [reflexivity|]. split; [reflexivity|].
  destruct (proj2 (proj2 (union_intersection_contract filter_A filter_B)))
    as (u & v & Hu & Hv & _ & _ & _ & _ & Hbits); [split; reflexivity|].
  exists u, v. split; [exact Hu|]. split; [exact Hv|].
  exact (Hbits 3%nat false true eq_refl eq_refl).
Defined.

Lemma union_intersection_algebra_witness :
  numHashes filter_A = numHashes filter_B /\ numBuckets filter_A = numBuckets filter_B /\
  contains std_hash_int 0 filter_A = Ok true /\
  exists U U' : t,
    filterUnion filter_A filter_B = Ok U /\ filterUnion filter_B filter_A = Ok U' /\
    eqb U U' = true /\ contains std_hash_int 0 U = Ok true.
Proof.
  split; [reflexivity|]. split; [reflexivity|]. split; [reflexivity|].
  destruct (union_intersection_algebra std_hash_int filter_A filter_B 0 eq_refl eq_refl)
    as (U & U' & _ & _ & HU & HU' & Heq & _ & _ & _ & Hc).
  exists U, U'. split; [exact HU|]. split; [exact HU'|]. split; [exact Heq|].
  apply Hc. left. reflexivity.
Defined.

Lemma equality_contract_witness :
  Permutation [1; 0] [0; 1] /\ eqb filter_20_2 filter_20_2 = true /\
  exists f' g',
    record_all std_hash_int [1; 0] filter_20_2 = Ok f' /\
    record_all std_hash_int [0; 1] filter_20_2 = Ok g' /\ eqb f' g' = true.
Proof.
  assert (Hperm : Permutation [1; 0] [0; 1]) by apply perm_swap.
  assert (Heq : eqb filter_20_2 filter_20_2 = true) by reflexivity.
  split; [exact Hperm|]. split; [exact Heq|].
  destruct (proj1 (proj2 (proj2 (equality_contract std_hash_int)))
              [1; 0] [0; 1] filter_20_2 filter_20_2 Hperm Heq) as [Hsame Hdef].
  destruct Hdef as [f' Hf']; [unfold numBuckets; simpl; lia|].
  destruct (Hsame f' Hf') as (g' & Hg' & Hfg).
  exists f', g'. split; [exact Hf'|]. split; [exact Hg' | exact Hfg].
Defined.

Lemma record_idempotent_witness :
  exists f', record std_hash_int 230 filter_20_2 = Ok f' /\
             record std_hash_int 230 f' = Ok f'.
Proof.
  eexists. split; [vm_compute; reflexivity|].
  apply (record_idempotent std_hash_int 230 filter_20_2). vm_compute; reflexivity.
Defined.

Lemma union_is_recording_both_witness :
  (0 < numBuckets filter_20_2)%nat /\
  exists a b u c : t,
    record_all std_hash_int [0; 1] filter_20_2 = Ok a /\
    record_all std_hash_int [2] filter_20_2 = Ok b /\
    filterUnion a b = Ok u /\
    record_all std_hash_int [0; 1; 2] filter_20_2 = Ok c /\ eqb u c = true.
Proof.
  assert (Hlen : (0 < numBuckets filter_20_2)%nat) by (unfold numBuckets; simpl; lia).
  split; [exact Hlen|].
  do 2 eexists.
  assert (Ha : record_all std_hash_int [0; 1] filter_20_2 = Ok ?[a])
    by (vm_compute; reflexivity).
  assert (Hb : record_all std_hash_int [2] filter_20_2 = Ok ?[b])
    by (vm_compute; reflexivity).
  destruct (union_is_recording_both std_hash_int [0; 1] [2] filter_20_2 _ _ Hlen Ha Hb)
    as (u & c & Hu & Hc & Heq).
  exists u, c. split; [exact Ha|]. split; [exact Hb|].
  split; [exact Hu|]. split; [exact Hc | exact Heq].
Defined.

Lemma intersection_contains_both_witness :
  exists I : t,
    filterIntersection filter_A filter_C = Ok I /\
    contains std_hash_int 0 I = Ok true /\
    contains std_hash_int 0 filter_A = Ok true /\
    contains std_hash_int 0 filter_C = Ok true.
Proof.
  exists {| num_hashes_ := 2; buckets_ := [true; false; false; false] |}.
  split; [vm_compute; reflexivity|]. split; [vm_compute; reflexivity|].
  apply (intersection_contains_both std_hash_int filter_A filter_C
           {| num_hashes_ := 2; buckets_ := [true; false; false; false] |} 0);
    vm_compute; reflexivity.
Defined.

(** ** The repository's tests, run on the model *)

(** [TEST(BloomFilter, numBucketsPopulated)] *)
Example test_numBucketsPopulated :
  (f ← record std_hash_int 230 filter_20_2; Ok (numBucketsPopulated f)) = Ok 2%nat /\
  (f ← record_all std_hash_int [230; 230] filter_20_2; Ok (numBucketsPopulated f))
  = Ok 2%nat /\
  (f ← record_all std_hash_int [230; 230; 233] filter_20_2; Ok (numBucketsPopulated f))
  = Ok 4%nat.
Proof. repeat split; vm_compute; reflexivity. Qed.

(** [TEST(BloomFilter, EqualsToBucketContents)] *)
Example test_EqualsToBucketContents :
  (a ← record std_hash_int 1 filter_20_2; b ← record std_hash_int 0 filter_20_2;
   Ok (eqb a b)) = Ok false /\
  (a ← record_all std_hash_int [1; 0] filter_20_2;
   b ← record_all std_hash_int [0; 1] filter_20_2;
   a' ← record std_hash_int 232 a; Ok (eqb a b, eqb a' b)) = Ok (true, false).
Proof. split; vm_compute; reflexivity. Qed.

(** [TEST(BloomFilter, filterUnion)]; the last value queried is [-1]. *)
Example test_filterUnion :
  (empty ← ctor 100 3;
   a ← record_all std_hash_int [0; 1] empty; b ← record_all std_hash_int [2] empty;
   u ← filterUnion a b; u' ← filterUnion b a;
   present ← mapM (fun x => contains std_hash_int x u) [0; 1; 2];
   absent ← mapM (fun x => contains std_hash_int x u) [4; 5; 6; -1];
   Ok (eqb u u', present, absent))
  = Ok (true, [true; true; true], [false; false; false; false]).
Proof. vm_compute; reflexivity. Qed.

(** The probe is computed in [Index] arithmetic: for the value [-1] of the
    test above and [n = 1] the sum [hash_a + n * hash_b] passes [2^64], and
    the bucket probed is 59, where the sum taken in the integers gives 75. *)
Example test_probe_wraps :
  hash std_hash_int (-1) = (18446744073709551600, 1152921504606846975) /\
  nth_hash 18446744073709551600 1152921504606846975 1 100 = 59 /\
  (18446744073709551600 + 1 * 1152921504606846975) mod 100 = 75.
Proof. repeat split; vm_compute; reflexivity. Qed.

(** As long as the sum stays below [2^64] the two agree. *)
Lemma nth_hash_exact hash_a hash_b n size :
  0 <= hash_a -> 0 <= hash_b -> hash_a + Z.of_nat n * hash_b < 2 ^ 64 ->
  nth_hash hash_a hash_b n size = (hash_a + Z.of_nat n * hash_b) mod Z.of_nat size.
Proof.
  intros Ha Hb Hsum. unfold nth_hash.
  rewrite (Index_of_small (Z.of_nat n * hash_b)) by nia.
  rewrite Index_of_small by nia. reflexivity.
Qed.

Section MakeFacts.
Context {Scalar : Type}.
Variables (log ceil : Scalar -> Scalar) (div mul : Scalar -> Scalar -> Scalar).
Variables (Scalar_of_Index : nat -> Scalar) (Index_of_Scalar : Scalar -> option nat).
Variables (one two : Scalar).

Lemma make_Ok_inv max_num false_positive_error (f : t) :
  make log ceil div mul Scalar_of_Index Index_of_Scalar one two
       max_num false_positive_error = Ok f ->
  Index_of_Scalar (ceil (div (log (div one false_positive_error)) (log two)))
  = Some (numHashes f) /\
  Index_of_Scalar
    (ceil (mul (Scalar_of_Index max_num) (div (Scalar_of_Index (numHashes f)) (log two))))
  = Some (numBuckets f) /\
  buckets_ f = replicate (numBuckets f) false.
Proof.
  unfold make.
  destruct (Index_of_Scalar (ceil (div (log (div one false_positive_error)) (log two))))
    as [num_hashes|] eqn:Hh; simpl; [|discriminate].
  destruct (Index_of_Scalar
              (ceil (mul (Scalar_of_Index max_num)
                         (div (Scalar_of_Index num_hashes) (log two)))))
    as [num_buckets|] eqn:Hb; simpl; [|discriminate].
  intros [= <-]. unfold numHashes, numBuckets; simpl. rewrite length_replicate.
  split; [reflexivity|]. split; [exact Hb | reflexivity].
Qed.

Lemma replicate_unset n :
  length (filter (fun b : bool => b = true) (replicate n false)) = 0%nat.
Proof.
  induction n as [|n IH]; [reflexivity|]. simpl.
  rewrite filter_cons_False by discriminate. exact IH.
Qed.

(** Whenever [make] returns a filter, no bucket of it is set. *)
Theorem make_builds_unset_filter max_num false_positive_error (f : t) :
  make log ceil div mul Scalar_of_Index Index_of_Scalar one two
       max_num false_positive_error = Ok f ->
  (forall i, (i < numBuckets f)%nat -> buckets_ f !! i = Some false) /\
  numBucketsPopulated f = 0%nat.
Proof.
  intros Hmake. destruct (make_Ok_inv _ _ _ Hmake) as (_ & _ & Hb).
  unfold numBucketsPopulated. rewrite Hb. split.
  - intros i Hi. now apply lookup_replicate_2.
  - apply replicate_unset.
Qed.

End MakeFacts.

Lemma make_builds_unset_filter_witness :
  exists f,
    make_double Double.log_at_examples 300 Double.rate_0_01 = Ok f /\
    numBuckets f = 3030%nat /\ numBucketsPopulated f = 0%nat.
Proof.
  exists {| num_hashes_ := 7; buckets_ := replicate 3030 false |}.
  assert (Hmake : make_double Double.log_at_examples 300 Double.rate_0_01
                  = Ok {| num_hashes_ := 7; buckets_ := replicate 3030 false |})
    by (vm_compute; reflexivity).
  split; [exact Hmake|]. split; [apply length_replicate|].
  exact (proj2 (make_builds_unset_filter _ _ _ _ _ _ _ _ _ _ _ Hmake)).
Defined.

End BloomFilterFacts.

(** * Properties of the reservoir sampler *)

Module ReservoirSamplingFacts.
Import ReservoirSampling.

Section WithValue.
Context {Value G : Type} `{RandomEngine G}.
Implicit Types (s : t Value G) (value : Value).

Lemma ctor_invariant num_to_sample (rand_gen : G) :
  0 <= num_to_sample ->
  exists s,
    ctor (Value := Value) num_to_sample rand_gen = Ok s /\ invariant s /\
    numToSample s = num_to_sample /\ numProcessed s = 0 /\ samples s = [].
Proof.
  intros Hk. eexists. split; [reflexivity|].
  unfold invariant, numToSample, numProcessed, samples; simpl.
  repeat split; try lia.
Qed.

(** One call of [process] on a state between two calls, as long as the
    counter still has an [int] value: the number [j] is drawn from
    [0 .. num_processed_], the value is taken exactly when
    [j < num_to_sample_], a taken value is appended while the reservoir is
    not full and written to position [j] afterwards, and the counter grows
    by one either way. *)
Lemma process_spec value s :
  invariant s -> num_processed_ s <= INT_MAX ->
  let draw := uniform_int 0 (num_processed_ s) (rand_gen_ s) in
  let j := draw.1 in
  0 <= j <= num_processed_ s /\
  exists s',
    process value s = Ok (j <? num_to_sample_ s, s') /\
    num_processed_ s' = num_processed_ s + 1 /\
    num_to_sample_ s' = num_to_sample_ s /\
    rand_gen_ s' = draw.2 /\
    samples_ s' =
      (if j <? num_to_sample_ s then
         if Z.of_nat (length (samples_ s)) <? num_to_sample_ s
         then samples_ s ++ [value]
         else <[Z.to_nat j := value]> (samples_ s)
       else samples_ s) /\
    invariant s'.
Proof.
  intros (Hk & Hp & Hlen) Hmax draw j.
  pose proof (uniform_int_range 0 (num_processed_ s) (rand_gen_ s) Hp) as Hj.
  fold draw in Hj. fold j in Hj. split; [exact Hj|].
  unfold process, numProcessed, numToSample.
  rewrite (int_of_small (num_processed_ s)) by lia.
  destruct (Z.ltb_spec (num_processed_ s) 0) as [Hneg|_]; [lia|].
  fold draw. destruct draw as [j' rand_gen] eqn:Hdraw. simpl in j. subst j.
  unfold INT_MAX in Hmax.
  rewrite (Index_of_small j') by lia.
  rewrite (Index_of_small (num_processed_ s + 1)) by lia.
  rewrite Z.geb_leb.
  destruct (Z.ltb_spec j' (num_to_sample_ s)) as [Hacc|Hrej].
  - destruct (Z.leb_spec (num_to_sample_ s) (num_processed_ s)) as [Hfull|Hroom].
    + unfold vector_at_set.
      destruct (decide (Z.to_nat j' < length (samples_ s))%nat) as [_|Hbad]; [|lia].
      simpl. eexists. split; [reflexivity|]. simpl.
      destruct (Z.ltb_spec (Z.of_nat (length (samples_ s))) (num_to_sample_ s)); [lia|].
      repeat split; simpl; rewrite ?length_insert; lia.
    + simpl. eexists. split; [reflexivity|]. simpl.
      destruct (Z.ltb_spec (Z.of_nat (length (samples_ s))) (num_to_sample_ s)); [|lia].
      repeat split; simpl; rewrite ?length_app; simpl; lia.
  - simpl. eexists. split; [reflexivity|]. simpl.
    repeat split; simpl; lia.
Qed.

Lemma process_all_app values values' s :
  process_all (values ++ values') s = process_all values s ≫= process_all values'.
Proof.
  revert s. induction values as [|value values IH]; intros s; simpl; [reflexivity|].
  destruct (process value s) as [[accepted s1]|e]; simpl; [apply IH|reflexivity].
Qed.

(** A run of calls from a state between two calls, as long as the counter
    keeps an [int] value before every call: the run returns, the state it
    ends in is again a state between two calls, the counter has grown by the
    number of calls, and while the reservoir is not full every value is
    appended. *)
Lemma process_all_spec values : forall s,
  invariant s -> num_processed_ s + Z.of_nat (length values) <= INT_MAX + 1 ->
  exists s',
    process_all values s = Ok s' /\ invariant s' /\
    num_to_sample_ s' = num_to_sample_ s /\
    num_processed_ s' = num_processed_ s + Z.of_nat (length values) /\
    (num_processed_ s + Z.of_nat (length values) <= num_to_sample_ s ->
     samples_ s' = samples_ s ++ values).
Proof.
  induction values as [|value values IH]; intros s Hinv Hmax; simpl in *.
  - exists s. repeat split; try apply Hinv; try lia. intros _. now rewrite app_nil_r.
  - destruct (process_spec value s Hinv ltac:(lia))
      as (Hj & s1 & Hrun & Hp1 & Hk1 & _ & Hs1 & Hinv1).
    rewrite Hrun; simpl.
    destruct (IH s1 Hinv1 ltac:(lia)) as (s2 & Hrun2 & Hinv2 & Hk2 & Hp2 & Hs2).
    exists s2. split; [exact Hrun2|]. split; [exact Hinv2|].
    split; [congruence|]. split; [lia|].
    intros Hroom. rewrite Hs2 by lia. rewrite Hs1.
    destruct Hinv as (Hk & Hp & Hlen).
    destruct (Z.ltb_spec (uniform_int 0 (num_processed_ s) (rand_gen_ s)).1
                         (num_to_sample_ s)); [|lia].
    destruct (Z.ltb_spec (Z.of_nat (length (samples_ s))) (num_to_sample_ s)); [|lia].
    now rewrite <- app_assoc.
Qed.

(** Once [2^31] values have been processed the counter has no [int] value
    any more: the conversion gives [-2^31] and the distribution is built
    with an upper bound below its lower bound. *)
Lemma process_at_int_limit value s :
  num_processed_ s = 2147483648 ->
  process value s = Fail (distribution_bounds 0 (-2147483648)).
Proof.
  intros Hp. unfold process, numProcessed. rewrite Hp.
  change (int_of 2147483648) with (-2147483648). reflexivity.
Qed.

(** The state with [num_processed_ = 2^31] is reached by [2^31] calls that
    all return. *)
Lemma int_limit_reachable num_to_sample (rand_gen : G) (values : list Value) :
  0 <= num_to_sample -> Z.of_nat (length values) = 2147483648 ->
  exists s0 s,
    ctor num_to_sample rand_gen = Ok s0 /\ process_all values s0 = Ok s /\
    invariant s /\ num_processed_ s = 2147483648.
Proof.
  intros Hk Hlen.
  destruct (ctor_invariant num_to_sample rand_gen Hk) as (s0 & Hctor & Hinv & _ & Hp & _).
  unfold numProcessed in Hp.
  destruct (process_all_spec values s0 Hinv) as (s & Hrun & Hinv' & _ & Hp' & _).
  { unfold INT_MAX. lia. }
  exists s0, s. repeat split; try assumption; try apply Hinv'. lia.
Qed.

(** C2 does not hold at this input.  Feed [2^31] values to a fresh sampler
    (of any capacity): every call returns and [numProcessed()] becomes
    [2^31].  The next call of [process] builds the distribution with the
    bounds [(0, -2^31)]: no number is drawn from [0 .. numProcessed()],
    nothing is returned and the counter is not incremented. *)
Theorem process_draw_range_beyond_int (rand_gen : G) (capacity : nat)
    (stream : nat -> Value) value :
  exists s0 s,
    ctor (Z.of_nat capacity) rand_gen = Ok s0 /\
    process_all (map stream (seq 0 (Z.to_nat 2147483648))) s0 = Ok s /\
    numProcessed s = 2147483648 /\
    process value s = Fail (distribution_bounds 0 (-2147483648)).
Proof.
  set (N := Z.to_nat 2147483648).
  assert (HN : Z.of_nat N = 2147483648) by (subst N; apply Z2Nat.id; lia).
  clearbody N.
  destruct (int_limit_reachable (Z.of_nat capacity) rand_gen (map stream (seq 0 N)))
    as (s0 & s & Hctor & Hrun & _ & Hp); [lia| |].
  { rewrite length_map, length_seq. exact HN. }
  exists s0, s. split; [exact Hctor|]. split; [exact Hrun|]. split; [exact Hp|].
  apply process_at_int_limit. exact Hp.
Qed.

(** C3 does not hold at this input.  Feed [N = 2^31 + 1] values to a fresh
    sampler of capacity [k = 1]: the first [2^31] calls return, the last one
    builds the distribution with the bounds [(0, -2^31)], so the run has no
    state after [N > k] values whose [samples()] could have length [k]. *)
Theorem long_stream_leaves_no_state (rand_gen : G) (stream : nat -> Value) :
  exists s0,
    ctor 1 rand_gen = Ok s0 /\
    process_all (map stream (seq 0 (Z.to_nat 2147483649))) s0
    = Fail (distribution_bounds 0 (-2147483648)).
Proof.
  change 2147483649 with (Z.succ 2147483648).
  rewrite Z2Nat.inj_succ by lia.
  set (N := Z.to_nat 2147483648).
  assert (HN : Z.of_nat N = 2147483648) by (subst N; apply Z2Nat.id; lia).
  clearbody N.
  rewrite seq_S, map_app.
  destruct (int_limit_reachable 1 rand_gen (map stream (seq 0 N)))
    as (s0 & s & Hctor & Hrun & _ & Hp); [lia| |].
  { rewrite length_map, length_seq. exact HN. }
  exists s0. split; [exact Hctor|].
  rewrite process_all_app, Hrun. simpl.
  rewrite (process_at_int_limit _ s Hp). reflexivity.
Qed.

(** The reservoir over a stream of at most [2^31] values, on a sampler the
    constructor has returned.  Every call returns; afterwards [samples()]
    holds [min(numProcessed(), k)] values and [numProcessed()] is the number
    of values fed; a stream of at most [k] values is held entirely, in the
    order of arrival; a longer one leaves exactly [k] values. *)
Lemma reservoir_invariants num_to_sample (rand_gen : G) (values : list Value) s0 :
  ctor num_to_sample rand_gen = Ok s0 ->
  0 < num_to_sample -> Z.of_nat (length values) <= 2147483648 ->
  exists s,
    process_all values s0 = Ok s /\
    numToSample s = num_to_sample /\
    numProcessed s = Z.of_nat (length values) /\
    Z.of_nat (length (samples s)) = Z.min (numProcessed s) num_to_sample /\
    (Z.of_nat (length values) <= num_to_sample -> samples s = values) /\
    (num_to_sample < Z.of_nat (length values) ->
     Z.of_nat (length (samples s)) = num_to_sample).
Proof.
  intros Hs0 Hk Hlen.
  destruct (ctor_invariant num_to_sample rand_gen ltac:(lia))
    as (s0' & Hctor & Hinv & Hk0 & Hp0 & Hs0').
  rewrite Hs0 in Hctor. injection Hctor as <-.
  unfold numToSample, numProcessed, samples in *.
  destruct (process_all_spec values s0 Hinv) as (s & Hrun & Hinv' & Hk' & Hp' & Hs').
  { unfold INT_MAX. lia. }
  destruct Hinv' as (_ & _ & Hlen').
  exists s. split; [exact Hrun|].
  split; [congruence|]. split; [lia|]. split; [congruence|].
  split.
  - intros Hroom. rewrite Hs' by lia. rewrite Hs0'. reflexivity.
  - intros Hfull. lia.
Qed.

(** [process] on a sampler whose counter has an [int] value: [j] is the
    number the engine draws from [0 .. numProcessed()], the count before the
    call; the value is accepted exactly when [j < numToSample()]; an
    accepted value is appended while [samples()] is shorter than
    [numToSample()] and replaces position [j] otherwise; [numProcessed()]
    grows by one whether or not the value is accepted; the call returns
    whether it was. *)
Theorem process_contract value s :
  invariant s -> numProcessed s <= INT_MAX ->
  let draw := uniform_int 0 (numProcessed s) (rand_gen_ s) in
  let j := draw.1 in
  0 <= j <= numProcessed s /\
  exists s',
    process value s = Ok (j <? numToSample s, s') /\
    numProcessed s' = numProcessed s + 1 /\
    numToSample s' = numToSample s /\
    samples s' =
      (if j <? numToSample s then
         if Z.of_nat (length (samples s)) <? numToSample s
         then samples s ++ [value]
         else <[Z.to_nat j := value]> (samples s)
       else samples s).
Proof.
  intros Hinv Hmax. unfold numProcessed, numToSample, samples in *.
  destruct (process_spec value s Hinv Hmax) as (Hj & s' & Hrun & Hp & Hk & _ & Hs & _).
  split; [exact Hj|]. exists s'. repeat split; assumption.
Qed.

End WithValue.

(** ** The theorems at the inputs of the tests *)

Lemma process_contract_witness :
  invariant sampler_3 /\ numProcessed sampler_3 <= INT_MAX /\
  exists s', process 4 sampler_3 = Ok (true, s') /\
             numProcessed s' = 1 /\ samples s' = [4].
Proof.
  assert (Hinv : invariant sampler_3).
  { unfold invariant; simpl. repeat split; lia. }
  assert (Hmax : numProcessed sampler_3 <= INT_MAX).
  { unfold numProcessed, INT_MAX; simpl. lia. }
  split; [exact Hinv|]. split; [exact Hmax|].
  destruct (process_contract 4 sampler_3 Hinv Hmax) as (_ & s' & Hrun & Hp & _ & Hs).
  exists s'. split; [exact Hrun|]. split; [exact Hp | exact Hs].
Defined.

(** [TEST(ReservoirSampling, samplesInitialization)] *)
Lemma reservoir_invariants_witness :
  ctor 3 1 = Ok sampler_3 /\ 0 < 3 /\ Z.of_nat (length [4; 5; 12]) <= 2147483648 /\
  exists s : t Z Z,
    process_all [4; 5; 12] sampler_3 = Ok s /\
    numProcessed s = 3 /\ samples s = [4; 5; 12].
Proof.
  assert (Hctor : ctor 3 1 = Ok sampler_3) by reflexivity.
  split; [exact Hctor|]. split; [lia|]. split; [simpl; lia|].
  destruct (reservoir_invariants 3 (1 : Z) [4; 5; 12] sampler_3 Hctor)
    as (s & Hrun & _ & Hp & _ & Hs & _); [lia | simpl; lia |].
  exists s. split; [exact Hrun|].
  split; [exact Hp|]. apply Hs. simpl. lia.
Defined.

End ReservoirSamplingFacts.

(** * Construction parameters *)

Lemma make_double_eval (log : PrimFloat.float -> PrimFloat.float) max_num
    false_positive_error num_hashes num_buckets :
  Double.to_Index
    (Double.ceil (PrimFloat.div (log (PrimFloat.div Double.one false_positive_error))
                                (log Double.two))) = Some num_hashes ->
  Double.to_Index
    (Double.ceil (PrimFloat.mul (Double.of_Index max_num)
                                (PrimFloat.div (Double.of_Index num_hashes)
                                               (log Double.two)))) = Some num_buckets ->
  make_double log max_num false_positive_error = BloomFilter.ctor num_buckets num_hashes.
Proof.
  intros Hh Hb. unfold make_double, BloomFilter.make.
  rewrite Hh; simpl. rewrite Hb; simpl. reflexivity.
Qed.



(** C9, amended to what the code does.  Invalid construction parameters
    are not validated.  The sampler's constructor called with capacity 0
    returns a sampler, with [numToSample() == 0] and nothing sampled.
    [make(0, 0.01)] returns a filter without buckets; [make(300, 1.0)],
    whose rate is outside (0, 1), returns a filter without buckets and
    without probes; [make(300, 2.0)] reports nothing either: it converts
    [-1.0] to [Index], which is undefined. *)
Theorem construction_is_unchecked :
  (forall (Value G : Type) (rand_gen : G),
      exists s : ReservoirSampling.t Value G,
        ReservoirSampling.ctor 0 rand_gen = Ok s /\
        ReservoirSampling.numToSample s = 0 /\
        ReservoirSampling.numProcessed s = 0 /\
        ReservoirSampling.samples s = []) /\
  (forall log : PrimFloat.float -> PrimFloat.float,
      log Double.hundred = Double.ln_100 -> log Double.two = Double.ln_2 ->
      exists f,
        make_double log 0 Double.rate_0_01 = Ok f /\
        BloomFilter.numBuckets f = 0%nat /\ BloomFilter.numHashes f = 7%nat) /\
  (forall log : PrimFloat.float -> PrimFloat.float,
      log Double.one = Double.zero -> log Double.two = Double.ln_2 ->
      exists f,
        make_double log 300 Double.one = Ok f /\
        BloomFilter.numBuckets f = 0%nat /\ BloomFilter.numHashes f = 0%nat) /\
  (forall log : PrimFloat.float -> PrimFloat.float,
      log Double.half = PrimFloat.opp Double.ln_2 -> log Double.two = Double.ln_2 ->
      make_double log 300 Double.two = Fail float_to_index).
Proof.
  split; [|split; [|split]].
  - intros Value G rand_gen. eexists. split; [reflexivity|]. repeat split.
  - intros log H100 H2.
    rewrite (make_double_eval log 0 Double.rate_0_01 7 0).
    + eexists. split; [reflexivity|]. split; reflexivity.
    + change (PrimFloat.div Double.one Double.rate_0_01) with Double.hundred.
      rewrite H100, H2. vm_compute. reflexivity.
    + rewrite H2. vm_compute. reflexivity.
  - intros log H1 H2.
    rewrite (make_double_eval log 300 Double.one 0 0).
    + eexists. split; [reflexivity|]. split; reflexivity.
    + change (PrimFloat.div Double.one Double.one) with Double.one.
      rewrite H1, H2. vm_compute. reflexivity.
    + rewrite H2. vm_compute. reflexivity.
  - intros log Hhalf H2. unfold make_double, BloomFilter.make.
    change (PrimFloat.div Double.one Double.two) with Double.half.
    rewrite Hhalf, H2.
    replace (Double.to_Index
               (Double.ceil (PrimFloat.div (PrimFloat.opp Double.ln_2) Double.ln_2)))
      with (@None nat) by (vm_compute; reflexivity).
    reflexivity.
Qed.

Lemma construction_is_unchecked_witness :
  exists f g,
    make_double Double.log_at_examples 0 Double.rate_0_01 = Ok f /\
    BloomFilter.numBuckets f = 0%nat /\
    make_double Double.log_at_examples 300 Double.one = Ok g /\
    BloomFilter.numHashes g = 0%nat /\
    make_double Double.log_at_examples 300 Double.two = Fail float_to_index.
Proof.
  destruct construction_is_unchecked as (_ & Hzero & Hone & Htwo).
  destruct (Hzero Double.log_at_examples eq_refl eq_refl) as (f & Hf & Hb & _).
  destruct (Hone Double.log_at_examples eq_refl eq_refl) as (g & Hg & _ & Hh).
  exists f, g. split; [exact Hf|]. split; [exact Hb|]. split; [exact Hg|].
  split; [exact Hh|]. exact (Htwo Double.log_at_examples eq_refl eq_refl).
Defined.

(** C9 does not hold at this input: the sampler's constructor called with
    capacity 0 returns a sampler and reports nothing. *)
Lemma zero_capacity_is_accepted :
  exists s : ReservoirSampling.t Z Z,
    ReservoirSampling.ctor 0 1 = Ok s /\
    ReservoirSampling.numToSample s = 0 /\
    ~ precondition_violation (ReservoirSampling.ctor (Value := Z) (G := Z) 0 1).
Proof.
  eexists. split; [reflexivity|]. split; [reflexivity|].
  intros [what Hthrow]. discriminate.
Qed.

(** * Further properties of the Bloom filter *)

Module BloomFilterLaws.
Import BloomFilter BloomFilterFacts.

(** The number of set buckets, as [numBucketsPopulated] counts it. *)
Local Abbreviation populated l := (length (filter (fun b : bool => b = true) l)).

Lemma populated_cons (x : bool) (l : list bool) :
  populated (x :: l) = ((if x then 1 else 0) + populated l)%nat.
Proof.
  destruct x.
  - rewrite filter_cons_True by reflexivity. reflexivity.
  - rewrite filter_cons_False by discriminate. reflexivity.
Qed.

Lemma populated_le_length (l : list bool) : (populated l <= length l)%nat.
Proof.
  induction l as [|x l IH]; [simpl; lia|].
  rewrite populated_cons. simpl. destruct x; lia.
Qed.

Lemma populated_insert_true (l : list bool) : forall i,
  (i < length l)%nat ->
  (populated l <= populated (<[i := true]> l) <= S (populated l))%nat.
Proof.
  induction l as [|x l IH]; intros i Hi; simpl in Hi; [lia|].
  destruct i as [|i]; simpl.
  - rewrite !populated_cons. destruct x; lia.
  - rewrite !populated_cons. specialize (IH i ltac:(lia)). lia.
Qed.

Lemma record_loop_populated hash_a hash_b todo : forall n (buckets buckets' : list bool),
  record_loop hash_a hash_b n todo buckets = Ok buckets' ->
  (populated buckets <= populated buckets' <= populated buckets + todo)%nat.
Proof.
  induction todo as [|todo IH]; intros n buckets buckets'; simpl.
  - intros [= <-]. lia.
  - destruct (Nat.eqb (length buckets) 0); [discriminate|].
    unfold vector_set.
    destruct (decide (Z.to_nat (nth_hash hash_a hash_b n (length buckets))
                      < length buckets)%nat) as [Hi|]; [|discriminate].
    simpl. intros Hrun. apply IH in Hrun.
    pose proof (populated_insert_true buckets _ Hi). lia.
Qed.

Section WithHash.
Context {Value : Type} (Hash : Value -> Z).

(** One [record] never clears a bucket and sets at most [numHashes] new
    ones, and the count never passes [numBuckets]. *)
Theorem record_populated_bounds value (f f' : t) :
  record Hash value f = Ok f' ->
  (numBucketsPopulated f <= numBucketsPopulated f')%nat /\
  (numBucketsPopulated f' <= numBucketsPopulated f + numHashes f)%nat /\
  (numBucketsPopulated f' <= numBuckets f')%nat.
Proof.
  unfold record. destruct (hash Hash value) as [hash_a hash_b].
  destruct (record_loop hash_a hash_b 0 (num_hashes_ f) (buckets_ f)) as [b'|e] eqn:Hloop;
    simpl; [|discriminate].
  intros [= <-]. apply record_loop_populated in Hloop.
  unfold numBucketsPopulated, numHashes, numBuckets; simpl.
  pose proof (populated_le_length b'). lia.
Qed.

(** A filter without hash probes ([numHashes() == 0]) reports every value
    as contained, whatever its buckets, and [record] leaves it as it is. *)
Theorem zero_hashes_contains_everything value (f : t) :
  numHashes f = 0%nat -> contains Hash value f = Ok true /\ record Hash value f = Ok f.
Proof.
  intros Hz. split.
  - apply contains_true_iff. left. exact Hz.
  - unfold record, numHashes in *. destruct (hash Hash value) as [hash_a hash_b].
    rewrite Hz. simpl. destruct f; simpl in *. subst. reflexivity.
Qed.

(** A filter the constructor has returned, with at least one bucket and
    one probe, contains no value and has no bucket set. *)
Theorem fresh_filter_contains_nothing num_buckets num_hashes value (f : t) :
  ctor num_buckets num_hashes = Ok f ->
  (0 < num_buckets)%nat -> (0 < num_hashes)%nat ->
  contains Hash value f = Ok false /\ numBucketsPopulated f = 0%nat.
Proof.
  intros [= <-] Hb Hh.
  set (f := {| num_hashes_ := num_hashes; buckets_ := replicate num_buckets false |}).
  assert (Hlen : numBuckets f = num_buckets) by apply length_replicate.
  split.
  - destruct (contains_spec Hash value f ltac:(lia)) as (r & Hrun & Hr).
    rewrite Hrun. f_equal. destruct r; [|reflexivity].
    assert (Hall := proj1 Hr eq_refl 0%nat Hh).
    apply lookup_replicate in Hall as [Hfalse _]. discriminate.
  - apply replicate_unset.
Qed.

(** Membership is never lost: what a filter contains, it still contains
    after any run of [record] calls (whether or not the value was ever
    recorded). *)
Theorem contains_monotone value values (f f' : t) :
  contains Hash value f = Ok true -> record_all Hash values f = Ok f' ->
  contains Hash value f' = Ok true.
Proof.
  intros Hc Hrun.
  destruct (Nat.eq_dec (numBuckets f) 0%nat) as [Hz|Hnz].
  - rewrite (record_all_no_buckets Hash values f Hz) in Hrun.
    rewrite (contains_no_buckets Hash value f Hz) in Hc.
    destruct (Nat.eqb (numHashes f) 0%nat) eqn:E; [|discriminate].
    destruct values; injection Hrun as <-;
      rewrite (contains_no_buckets Hash value f Hz), E; reflexivity.
  - destruct (record_all_spec Hash values f ltac:(lia)) as (f1 & Hr1 & Hh1 & Hb1 & Hbits).
    rewrite Hrun in Hr1. injection Hr1 as <-.
    apply contains_true_iff in Hc. apply contains_true_iff.
    destruct Hc as [Hzero|[_ Hall]]; [left; congruence|].
    right. split; [lia|]. intros n Hn. apply Hbits. left.
    rewrite Hb1. apply Hall. lia.
Qed.

(** What a filter grown from a fresh one contains: exactly the values
    every probe of which falls into a bucket probed by a recorded value.
    So a recorded value is contained, and a value that was not recorded is
    reported (a false positive) exactly when all its probes are covered. *)
Theorem contains_exactly_covered num_buckets num_hashes values value (e f : t) :
  (0 < num_buckets)%nat ->
  ctor num_buckets num_hashes = Ok e -> record_all Hash values e = Ok f ->
  exists r,
    contains Hash value f = Ok r /\
    (r = true <->
     forall n, (n < num_hashes)%nat ->
       exists recorded m, recorded ∈ values /\ (m < num_hashes)%nat /\
         probe Hash value n num_buckets = probe Hash recorded m num_buckets).
Proof.
  intros Hb [= <-] Hrun.
  set (e := {| num_hashes_ := num_hashes; buckets_ := replicate num_buckets false |}) in *.
  assert (Hlen : numBuckets e = num_buckets) by apply length_replicate.
  destruct (record_all_spec Hash values e ltac:(lia)) as (f1 & Hr1 & Hh1 & Hb1 & Hbits).
  rewrite Hrun in Hr1. injection Hr1 as <-.
  destruct (contains_spec Hash value f ltac:(lia)) as (r & Hc & Hr).
  exists r. split; [exact Hc|]. rewrite Hr, Hh1, Hb1, Hlen.
  change (numHashes e) with num_hashes.
  split; intros Hall n Hn; specialize (Hall n Hn).
  - apply Hbits in Hall as [Hfresh|(v & m & Hin & Hm & Heq)].
    + apply lookup_replicate in Hfresh as [Hfalse _]. discriminate.
    + exists v, m. rewrite Hlen in Heq. auto.
  - destruct Hall as (v & m & Hin & Hm & Heq). apply Hbits. right.
    exists v, m. rewrite Hlen. auto.
Qed.

(** [==] is an equivalence, and two equal filters cannot be told apart:
    they answer every [contains] alike, [record] maps them to the same
    filter, and they count the same number of set buckets. *)
Theorem equal_filters_agree :
  (forall f : t, eqb f f = true) /\
  (forall f g : t, eqb f g = eqb g f) /\
  (forall f g h : t, eqb f g = true -> eqb g h = true -> eqb f h = true) /\
  (forall (f g : t) value,
      eqb f g = true ->
      contains Hash value f = contains Hash value g /\
      record Hash value f = record Hash value g /\
      numBucketsPopulated f = numBucketsPopulated g).
Proof.
  split; [|split; [|split]].
  - intros f. apply eqb_eq. reflexivity.
  - intros f g. destruct (eqb f g) eqn:E1, (eqb g f) eqn:E2; try reflexivity.
    + apply eqb_eq in E1. subst g.
      assert (eqb f f = true) by (apply eqb_eq; reflexivity). congruence.
    + apply eqb_eq in E2. subst g.
      assert (eqb f f = true) by (apply eqb_eq; reflexivity). congruence.
  - intros f g h Hfg Hgh. apply eqb_eq in Hfg, Hgh. apply eqb_eq. congruence.
  - intros f g value Heq. apply eqb_eq in Heq. subst g. repeat split.
Qed.

(** The first probe of every value is [hash_a % numBuckets], and [hash_a]
    is a multiple of 16.  So when [numBuckets] divides 16 the first probe of
    every value is bucket 0: every [record] sets bucket 0, and as long as
    bucket 0 is unset no value is contained. *)
Theorem first_probe_is_bucket_zero (f : t) :
  (0 < numBuckets f)%nat -> 16 mod Z.of_nat (numBuckets f) = 0 ->
  (0 < numHashes f)%nat ->
  (forall value, probe Hash value 0 (numBuckets f) = 0%nat) /\
  (forall value f', record Hash value f = Ok f' -> buckets_ f' !! 0%nat = Some true) /\
  (forall value, buckets_ f !! 0%nat = Some false -> contains Hash value f = Ok false).
Proof.
  intros Hlen Hdiv Hh.
  assert (Hprobe : forall value, probe Hash value 0 (numBuckets f) = 0%nat).
  { intros value. unfold probe, nth_hash, hash; simpl.
    set (h := Index_of (Hash value)). set (size := Z.of_nat (numBuckets f)) in *.
    rewrite Z.add_0_r.
    assert (Hz : Index_of 0 = 0) by reflexivity.
    rewrite (Index_of_small (Index_of (Z.shiftl h shift_by))) by apply Index_of_range.
    change shift_by with 4. rewrite Z.shiftl_mul_pow2 by lia.
    unfold Index_of, Index_bits.
    assert (Hs : 0 < size) by (subst size; lia).
    apply Z.mod_divide in Hdiv as [c Hc]; [|lia].
    rewrite Z.mod_mod_divide by (exists (c * 2 ^ 60); lia).
    replace (h * 2 ^ 4) with (h * c * size) by (rewrite <- Z.mul_assoc, <- Hc; lia).
    rewrite Z.mod_mul by lia. reflexivity. }
  split; [exact Hprobe|]. split.
  - intros value f' Hrun.
    destruct (record_spec Hash value f Hlen) as (f1 & Hr1 & _ & _ & Hbits).
    rewrite Hrun in Hr1. injection Hr1 as <-.
    apply Hbits. right. exists 0%nat. split; [exact Hh|]. symmetry. apply Hprobe.
  - intros value Hunset.
    destruct (contains_spec Hash value f Hlen) as (r & Hc & Hr).
    rewrite Hc. f_equal. destruct r; [|reflexivity].
    assert (Hall := proj1 Hr eq_refl 0%nat Hh). rewrite Hprobe in Hall. congruence.
Qed.

(** A value whose hash is below 16 has [hash_b = 0]: all its probes fall
    into the one bucket [16 * hash % numBuckets], [record] sets that bucket
    and nothing else, and [contains] is the content of that bucket. *)
Theorem small_hash_single_bucket value (f : t) :
  0 <= Hash value < 16 -> (0 < numBuckets f)%nat -> (0 < numHashes f)%nat ->
  let bucket := Z.to_nat ((16 * Hash value) mod Z.of_nat (numBuckets f)) in
  record Hash value f =
    Ok {| num_hashes_ := num_hashes_ f; buckets_ := <[bucket := true]> (buckets_ f) |} /\
  exists set, buckets_ f !! bucket = Some set /\ contains Hash value f = Ok set.
Proof.
  intros Hsmall Hlen Hh bucket.
  assert (Hhash : hash Hash value = (16 * Hash value, 0)).
  { unfold hash. rewrite (Index_of_small (Hash value)) by lia.
    change shift_by with 4.
    rewrite Z.shiftl_mul_pow2, Z.shiftr_div_pow2 by lia.
    rewrite (Z.div_small (Hash value)) by lia.
    rewrite Index_of_small by lia. f_equal. lia. }
  assert (Hprobe : forall n, probe Hash value n (numBuckets f) = bucket).
  { intros n. unfold probe, nth_hash. rewrite Hhash; simpl.
    rewrite Z.mul_0_r. change (Index_of 0) with 0. rewrite Z.add_0_r.
    rewrite Index_of_small by lia. reflexivity. }
  assert (Hin : (bucket < numBuckets f)%nat).
  { rewrite <- (Hprobe 0%nat). now apply nth_hash_index. }
  split.
  - destruct (record_spec Hash value f Hlen) as (f1 & Hr1 & Hh1 & Hb1 & Hbits).
    rewrite Hr1. f_equal. destruct f1 as [h1 b1].
    unfold numHashes, numBuckets in *; simpl in *. f_equal; [exact Hh1|].
    apply buckets_ext; [rewrite length_insert; exact Hb1|].
    intros i. rewrite Hbits. split.
    + intros [Hi|(n & Hn & ->)].
      * destruct (decide (bucket = i)) as [<-|Hne];
          [now apply list_lookup_insert_eq | now rewrite list_lookup_insert_ne].
      * rewrite Hprobe. now apply list_lookup_insert_eq.
    + intros Hi. destruct (decide (bucket = i)) as [<-|Hne].
      * right. exists 0%nat. split; [exact Hh|]. symmetry. apply Hprobe.
      * left. now rewrite list_lookup_insert_ne in Hi.
  - destruct (lookup_lt_is_Some_2 (buckets_ f) bucket Hin) as [set Hset].
    exists set. split; [exact Hset|].
    destruct (contains_spec Hash value f Hlen) as (r & Hc & Hr).
    rewrite Hc. f_equal. destruct r, set; try reflexivity.
    + assert (Hall := proj1 Hr eq_refl 0%nat Hh). rewrite Hprobe in Hall. congruence.
    + assert (true = false); [|discriminate]. symmetry. apply Hr.
      intros n _. rewrite Hprobe. exact Hset.
Qed.

End WithHash.

(** ** Union and intersection as operations on bucket vectors *)

Lemma filterUnion_Ok_shape (a b u : t) :
  filterUnion a b = Ok u -> numHashes a = numHashes b /\ numBuckets a = numBuckets b.
Proof.
  intros Hu.
  destruct (Nat.eq_dec (numHashes a) (numHashes b)) as [Hh|Hh];
    [destruct (Nat.eq_dec (numBuckets a) (numBuckets b)) as [Hb|Hb]; [auto|]|];
    exfalso;
    (assert (Hthrow : precondition_violation (filterUnion a b))
       by (apply filterUnion_throws; auto));
    destruct Hthrow as [what Hw]; congruence.
Qed.

Lemma zip_with_bool_diag (op : bool -> bool -> bool) (l : list bool) :
  (forall x, op x x = x) -> zip_with op l l = l.
Proof.
  intros Hop. induction l as [|x l IH]; simpl; [reflexivity|]. now rewrite Hop, IH.
Qed.

Lemma zip_with_bool_assoc (op : bool -> bool -> bool) (a : list bool) :
  (forall x y z, op (op x y) z = op x (op y z)) ->
  forall b c, zip_with op (zip_with op a b) c = zip_with op a (zip_with op b c).
Proof.
  intros Hop. induction a as [|x a IH]; intros [|y b] [|z c]; simpl; try reflexivity.
  now rewrite Hop, IH.
Qed.

Lemma zip_with_orb_unset (l : list bool) :
  zip_with orb l (replicate (length l) false) = l.
Proof.
  induction l as [|x l IH]; simpl; [reflexivity|]. rewrite IH. now destruct x.
Qed.

Lemma zip_with_andb_unset (l : list bool) :
  zip_with andb l (replicate (length l) false) = replicate (length l) false.
Proof.
  induction l as [|x l IH]; simpl; [reflexivity|]. rewrite IH. now destruct x.
Qed.

Lemma populated_zip (l : list bool) : forall r : list bool,
  length l = length r ->
  (populated (zip_with orb l r) + populated (zip_with andb l r)
   = populated l + populated r)%nat /\
  (populated (zip_with andb l r) <= populated l)%nat /\
  (populated (zip_with andb l r) <= populated r)%nat.
Proof.
  induction l as [|x l IH]; intros [|y r] Hlen; simpl in *; try discriminate.
  - repeat split; lia.
  - injection Hlen as Hlen. destruct (IH r Hlen) as (Hsum & Hl & Hr).
    rewrite !populated_cons. destruct x, y; simpl; lia.
Qed.

(** A filter united or intersected with itself is the filter again; a
    fresh filter of the same shape is neutral for the union and absorbing
    for the intersection.  None of these calls throws. *)
Theorem union_intersection_units (a : t) :
  exists e u v uu vv : t,
    ctor (numBuckets a) (numHashes a) = Ok e /\
    filterUnion a e = Ok u /\ eqb u a = true /\
    filterIntersection a e = Ok v /\ eqb v e = true /\
    filterUnion a a = Ok uu /\ eqb uu a = true /\
    filterIntersection a a = Ok vv /\ eqb vv a = true.
Proof.
  set (e := {| num_hashes_ := numHashes a;
               buckets_ := replicate (numBuckets a) false |}).
  assert (Hh : numHashes a = numHashes e) by reflexivity.
  assert (Hb : numBuckets a = numBuckets e).
  { unfold numBuckets; simpl. now rewrite length_replicate. }
  exists e.
  rewrite (filterUnion_spec a e Hh Hb), (filterIntersection_spec a e Hh Hb).
  rewrite (filterUnion_spec a a eq_refl eq_refl),
          (filterIntersection_spec a a eq_refl eq_refl).
  do 4 eexists. split; [reflexivity|].
  split; [reflexivity|]. split.
  { apply eqb_eq. destruct a as [h b]; unfold e, numBuckets; simpl.
    now rewrite zip_with_orb_unset. }
  split; [reflexivity|]. split.
  { apply eqb_eq. destruct a as [h b]; unfold e, numBuckets, numHashes; simpl.
    now rewrite zip_with_andb_unset. }
  split; [reflexivity|]. split.
  { apply eqb_eq. destruct a as [h b]; simpl.
    rewrite zip_with_bool_diag; [reflexivity | now intros []]. }
  split; [reflexivity|].
  apply eqb_eq. destruct a as [h b]; simpl.
  rewrite zip_with_bool_diag; [reflexivity | now intros []].
Qed.

(** Union and intersection are associative on filters of one shape: both
    ways of combining three filters return, and return equal filters. *)
Theorem union_intersection_associative (a b c : t) :
  numHashes a = numHashes b -> numBuckets a = numBuckets b ->
  numHashes b = numHashes c -> numBuckets b = numBuckets c ->
  exists ab bc l r : t,
    filterUnion a b = Ok ab /\ filterUnion b c = Ok bc /\
    filterUnion ab c = Ok l /\ filterUnion a bc = Ok r /\ eqb l r = true /\
  exists ab' bc' l' r' : t,
    filterIntersection a b = Ok ab' /\ filterIntersection b c = Ok bc' /\
    filterIntersection ab' c = Ok l' /\ filterIntersection a bc' = Ok r' /\
    eqb l' r' = true.
Proof.
  intros Hab Hab' Hbc Hbc'.
  rewrite (filterUnion_spec a b Hab Hab'), (filterUnion_spec b c Hbc Hbc').
  rewrite (filterIntersection_spec a b Hab Hab'), (filterIntersection_spec b c Hbc Hbc').
  unfold numHashes, numBuckets in *.
  do 4 eexists. split; [reflexivity|]. split; [reflexivity|].
  rewrite filterUnion_spec;
    [|unfold numHashes; simpl; congruence
     |unfold numBuckets; simpl; rewrite length_zip_with; lia].
  rewrite (filterUnion_spec a);
    [|unfold numHashes; simpl; congruence
     |unfold numBuckets; simpl; rewrite length_zip_with; lia].
  split; [reflexivity|]. split; [reflexivity|]. split.
  { apply eqb_eq. simpl. f_equal. apply zip_with_bool_assoc. now intros [] [] []. }
  do 4 eexists. split; [reflexivity|]. split; [reflexivity|].
  rewrite filterIntersection_spec;
    [|unfold numHashes; simpl; congruence
     |unfold numBuckets; simpl; rewrite length_zip_with; lia].
  rewrite (filterIntersection_spec a);
    [|unfold numHashes; simpl; congruence
     |unfold numBuckets; simpl; rewrite length_zip_with; lia].
  split; [reflexivity|]. split; [reflexivity|].
  apply eqb_eq. simpl. f_equal. apply zip_with_bool_assoc. now intros [] [] [].
Qed.

(** Counting set buckets: the union and the intersection of two filters
    together have as many set buckets as the two filters together; the
    intersection has no more than either filter and the union no fewer. *)
Theorem populated_inclusion_exclusion (a b u v : t) :
  filterUnion a b = Ok u -> filterIntersection a b = Ok v ->
  (numBucketsPopulated u + numBucketsPopulated v
   = numBucketsPopulated a + numBucketsPopulated b)%nat /\
  (numBucketsPopulated v <= numBucketsPopulated a <= numBucketsPopulated u)%nat /\
  (numBucketsPopulated v <= numBucketsPopulated b <= numBucketsPopulated u)%nat.
Proof.
  intros Hu Hv. destruct (filterUnion_Ok_shape a b u Hu) as [Hh Hb].
  rewrite (filterUnion_spec a b Hh Hb) in Hu. injection Hu as <-.
  rewrite (filterIntersection_spec a b Hh Hb) in Hv. injection Hv as <-.
  unfold numBucketsPopulated, numBuckets in *; simpl.
  destruct (populated_zip (buckets_ a) (buckets_ b) Hb) as (Hsum & Hl & Hr). lia.
Qed.

(** ** The theorems at the inputs of the tests *)

Lemma record_populated_bounds_witness :
  exists f',
    record std_hash_int 230 filter_20_2 = Ok f' /\
    (numBucketsPopulated filter_20_2 <= numBucketsPopulated f')%nat /\
    (numBucketsPopulated f' <= numBucketsPopulated filter_20_2 + numHashes filter_20_2)%nat /\
    (numBucketsPopulated f' <= numBuckets f')%nat.
Proof.
  eexists. split; [vm_compute; reflexivity|].
  eapply (record_populated_bounds std_hash_int 230 filter_20_2).
  vm_compute; reflexivity.
Defined.

Lemma zero_hashes_contains_everything_witness :
  numHashes {| num_hashes_ := 0; buckets_ := [false; false] |} = 0%nat /\
  contains std_hash_int 7 {| num_hashes_ := 0; buckets_ := [false; false] |} = Ok true.
Proof.
  split; [reflexivity|].
  exact (proj1 (zero_hashes_contains_everything std_hash_int 7
                  {| num_hashes_ := 0; buckets_ := [false; false] |} eq_refl)).
Defined.

Lemma fresh_filter_contains_nothing_witness :
  ctor 20 2 = Ok filter_20_2 /\ (0 < 20)%nat /\ (0 < 2)%nat /\
  contains std_hash_int 230 filter_20_2 = Ok false /\
  numBucketsPopulated filter_20_2 = 0%nat.
Proof.
  assert (Hctor : ctor 20 2 = Ok filter_20_2) by reflexivity.
  assert (Hb : (0 < 20)%nat) by lia. assert (Hh : (0 < 2)%nat) by lia.
  split; [exact Hctor|]. split; [exact Hb|]. split; [exact Hh|].
  exact (fresh_filter_contains_nothing std_hash_int 20 2 230 filter_20_2 Hctor Hb Hh).
Defined.

(** After [record(230)] the filter also reports 0, which was never
    recorded: both probes of 0 fall into bucket 0, the first probe of 230. *)
Lemma contains_monotone_witness :
  exists f f',
    record_all std_hash_int [230] filter_20_2 = Ok f /\
    contains std_hash_int 0 f = Ok true /\
    record_all std_hash_int [233; 4] f = Ok f' /\
    contains std_hash_int 0 f' = Ok true.
Proof.
  do 2 eexists. split; [vm_compute; reflexivity|].
  assert (Hc : contains std_hash_int 0
                 {| num_hashes_ := 2; buckets_ := <[0%nat := true]> (<[14%nat := true]>
                                                    (replicate 20 false)) |} = Ok true)
    by (vm_compute; reflexivity).
  split; [exact Hc|]. split; [vm_compute; reflexivity|].
  eapply (contains_monotone std_hash_int 0 [233; 4]); [exact Hc | vm_compute; reflexivity].
Defined.

Lemma contains_exactly_covered_witness :
  (0 < 20)%nat /\
  exists e f r,
    ctor 20 2 = Ok e /\ record_all std_hash_int [230] e = Ok f /\
    contains std_hash_int 0 f = Ok r /\
    (r = true <->
     forall n, (n < 2)%nat ->
       exists recorded m, recorded ∈ [230] /\ (m < 2)%nat /\
         probe std_hash_int 0 n 20 = probe std_hash_int recorded m 20).
Proof.
  assert (Hb : (0 < 20)%nat) by lia. split; [exact Hb|].
  exists filter_20_2. eexists.
  assert (He : ctor 20 2 = Ok filter_20_2) by reflexivity.
  assert (Hf : record_all std_hash_int [230] filter_20_2 = Ok ?[f])
    by (vm_compute; reflexivity).
  destruct (contains_exactly_covered std_hash_int 20 2 [230] 0 _ _ Hb He Hf)
    as (r & Hc & Hr).
  exists r. split; [exact He|]. split; [exact Hf|]. split; [exact Hc | exact Hr].
Defined.

Lemma first_probe_is_bucket_zero_witness :
  (0 < numBuckets filter_A)%nat /\ 16 mod Z.of_nat (numBuckets filter_A) = 0 /\
  (0 < numHashes filter_A)%nat /\
  forall value : Z, probe std_hash_int value 0 (numBuckets filter_A) = 0%nat.
Proof.
  assert (Hb : (0 < numBuckets filter_A)%nat) by (unfold numBuckets; simpl; lia).
  assert (Hd : 16 mod Z.of_nat (numBuckets filter_A) = 0) by reflexivity.
  assert (Hh : (0 < numHashes filter_A)%nat) by (unfold numHashes; simpl; lia).
  split; [exact Hb|]. split; [exact Hd|]. split; [exact Hh|].
  exact (proj1 (first_probe_is_bucket_zero std_hash_int filter_A Hb Hd Hh)).
Defined.

Lemma small_hash_single_bucket_witness :
  0 <= std_hash_int 1 < 16 /\
  record std_hash_int 1 filter_20_2 =
    Ok {| num_hashes_ := 2; buckets_ := <[16%nat := true]> (replicate 20 false) |}.
Proof.
  assert (Hs : 0 <= std_hash_int 1 < 16) by (change (std_hash_int 1) with 1; lia).
  split; [exact Hs|].
  refine (proj1 (small_hash_single_bucket std_hash_int 1 filter_20_2 Hs _ _)).
  - unfold numBuckets; simpl; lia.
  - unfold numHashes; simpl; lia.
Defined.

Lemma union_intersection_associative_witness :
  exists ab bc l r : t,
    filterUnion filter_A filter_B = Ok ab /\ filterUnion filter_B filter_C = Ok bc /\
    filterUnion ab filter_C = Ok l /\ filterUnion filter_A bc = Ok r /\ eqb l r = true.
Proof.
  destruct (union_intersection_associative filter_A filter_B filter_C
              eq_refl eq_refl eq_refl eq_refl)
    as (ab & bc & l & r & Hab & Hbc & Hl & Hr & Heq & _).
  exists ab, bc, l, r. repeat split; assumption.
Defined.

Lemma populated_inclusion_exclusion_witness :
  exists u v : t,
    filterUnion filter_A filter_B = Ok u /\ filterIntersection filter_A filter_B = Ok v /\
    (numBucketsPopulated u + numBucketsPopulated v
     = numBucketsPopulated filter_A + numBucketsPopulated filter_B)%nat.
Proof.
  do 2 eexists. split; [vm_compute; reflexivity|]. split; [vm_compute; reflexivity|].
  eapply (fun Hu Hv => proj1 (populated_inclusion_exclusion filter_A filter_B _ _ Hu Hv));
    vm_compute; reflexivity.
Defined.

End BloomFilterLaws.

(** * Further properties of the reservoir sampler *)

Module ReservoirSamplingLaws.
Import ReservoirSampling ReservoirSamplingFacts.

Section WithValue.
Context {Value G : Type} `{RandomEngine G}.
Implicit Types (s : t Value G) (value : Value).

Lemma elem_of_insert_inv (l : list Value) (i : nat) (x y : Value) :
  x ∈ <[i := y]> l -> x ∈ l \/ x = y.
Proof.
  intros Hx. apply list_elem_of_lookup in Hx as [j Hj].
  apply list_lookup_insert_Some in Hj as [(-> & -> & _)|(_ & Hj)].
  - right. reflexivity.
  - left. apply list_elem_of_lookup. eauto.
Qed.

Lemma process_step_effect value s accepted s' :
  process value s = Ok (accepted, s') ->
  (accepted = true -> value ∈ samples s') /\
  (accepted = false -> samples s' = samples s) /\
  (forall x, x ∈ samples s' -> x ∈ samples s \/ x = value) /\
  numToSample s' = numToSample s.
Proof.
  unfold process, samples, numToSample, numProcessed.
  destruct (int_of (num_processed_ s) <? 0); [discriminate|].
  destruct (uniform_int 0 (int_of (num_processed_ s)) (rand_gen_ s)) as [j rand_gen].
  destruct (Index_of j <? num_to_sample_ s).
  - destruct (num_processed_ s >=? num_to_sample_ s).
    + unfold vector_at_set.
      destruct (decide (Z.to_nat (Index_of j) < length (samples_ s))%nat) as [Hi|];
        [|discriminate].
      simpl. intros [= <- <-]; simpl.
      split; [intros _; now apply list_elem_of_insert|].
      split; [discriminate|]. split; [|reflexivity].
      intros x. apply elem_of_insert_inv.
    + simpl. intros [= <- <-]; simpl.
      split; [intros _; apply elem_of_app; right; now left|].
      split; [discriminate|]. split; [|reflexivity].
      intros x Hx. apply elem_of_app in Hx as [Hx|Hx]; [left; exact Hx|].
      right. now apply list_elem_of_singleton in Hx.
  - simpl. intros [= <- <-]; simpl.
    split; [discriminate|]. split; [reflexivity|]. split; [auto|reflexivity].
Qed.

(** What one returning call of [process] does to the reservoir: an
    accepted value is in [samples()] afterwards, a rejected value leaves
    [samples()] untouched, nothing but the value processed is ever added,
    and [numToSample()] is kept. *)
Theorem process_keeps_or_takes value s accepted s' :
  process value s = Ok (accepted, s') ->
  (accepted = true -> value ∈ samples s') /\
  (accepted = false -> samples s' = samples s) /\
  (forall x, x ∈ samples s' -> x ∈ samples s \/ x = value) /\
  numToSample s' = numToSample s.
Proof. exact (process_step_effect value s accepted s'). Qed.

Lemma process_all_samples_from values : forall s s',
  process_all values s = Ok s' ->
  forall x, x ∈ samples s' -> x ∈ samples s \/ x ∈ values.
Proof.
  induction values as [|value values IH]; intros s s'; simpl.
  - intros [= <-] x Hx. left. exact Hx.
  - destruct (process value s) as [[accepted s1]|e] eqn:Hstep; simpl; [|discriminate].
    intros Hrun x Hx.
    destruct (IH s1 s' Hrun x Hx) as [Hx1|Hin]; [|right; now right].
    apply (process_step_effect value s accepted s1 Hstep) in Hx1 as [Hs| ->];
      [left; exact Hs | right; now left].
Qed.

(** The reservoir never holds anything but values of the stream: after any
    run of returning calls on a fresh sampler every element of [samples()]
    is one of the values processed. *)
Theorem samples_come_from_stream num_to_sample (rand_gen : G) values s0 s :
  ctor num_to_sample rand_gen = Ok s0 -> process_all values s0 = Ok s ->
  forall x, x ∈ samples s -> x ∈ values.
Proof.
  intros [= <-] Hrun x Hx.
  destruct (process_all_samples_from values _ s Hrun x Hx) as [Hnil|Hin]; [|exact Hin].
  inversion Hnil.
Qed.

(** The two phases of the sampler, for a counter with an [int] value.
    While fewer than [numToSample()] values have been processed every value
    is accepted and appended.  From then on the length of [samples()] stays,
    a rejected value changes nothing, and an accepted value replaces the
    one element at the drawn position, which is below [numToSample()]. *)
Theorem filling_then_replacing value s :
  invariant s -> numProcessed s <= INT_MAX ->
  (numProcessed s < numToSample s ->
   exists s', process value s = Ok (true, s') /\ samples s' = samples s ++ [value]) /\
  (numToSample s <= numProcessed s ->
   exists accepted s',
     process value s = Ok (accepted, s') /\
     length (samples s') = length (samples s) /\
     (accepted = false -> samples s' = samples s) /\
     (accepted = true ->
      exists j, (j < length (samples s))%nat /\
                samples s' = <[j := value]> (samples s))).
Proof.
  intros Hinv Hmax. unfold numProcessed, numToSample, samples in *.
  destruct (process_spec value s Hinv Hmax) as (Hj & s' & Hrun & _ & _ & _ & Hs & _).
  destruct Hinv as (Hk & Hp & Hlen).
  set (j := (uniform_int 0 (num_processed_ s) (rand_gen_ s)).1) in *.
  split.
  - intros Hroom. exists s'.
    destruct (Z.ltb_spec j (num_to_sample_ s)); [|lia].
    destruct (Z.ltb_spec (Z.of_nat (length (samples_ s))) (num_to_sample_ s)); [|lia].
    split; assumption.
  - intros Hfull. exists (j <? num_to_sample_ s), s'. split; [exact Hrun|].
    destruct (Z.ltb_spec j (num_to_sample_ s)) as [Hacc|Hrej].
    + destruct (Z.ltb_spec (Z.of_nat (length (samples_ s))) (num_to_sample_ s)); [lia|].
      rewrite Hs, length_insert. split; [reflexivity|]. split; [discriminate|].
      intros _. exists (Z.to_nat j). split; [lia|reflexivity].
    + rewrite Hs. split; [reflexivity|]. split; [reflexivity|discriminate].
Qed.

(** A sampler of capacity 0 takes nothing: over a stream of at most [2^31]
    values every call returns, [samples()] stays empty and the counter
    counts the values; the next call, if the counter still has an [int]
    value, returns [false]. *)
Theorem zero_capacity_takes_nothing (rand_gen : G) (values : list Value) :
  Z.of_nat (length values) <= 2147483648 ->
  exists s0 s,
    ctor 0 rand_gen = Ok s0 /\ process_all values s0 = Ok s /\
    samples s = [] /\ numProcessed s = Z.of_nat (length values) /\
    (Z.of_nat (length values) <= INT_MAX ->
     forall value, exists s', process value s = Ok (false, s') /\ samples s' = []).
Proof.
  intros Hlen.
  destruct (ctor_invariant (Value := Value) 0 rand_gen ltac:(lia))
    as (s0 & Hctor & Hinv & Hk0 & Hp0 & _).
  unfold numToSample, numProcessed, samples in *.
  destruct (process_all_spec values s0 Hinv) as (s & Hrun & Hinv' & Hk & Hp & _).
  { unfold INT_MAX. lia. }
  assert (Hempty : samples_ s = []).
  { destruct Hinv' as (_ & _ & Hl). apply length_zero_iff_nil. lia. }
  exists s0, s. split; [exact Hctor|]. split; [exact Hrun|].
  split; [exact Hempty|]. split; [lia|].
  intros Hint value.
  destruct (process_spec value s Hinv' ltac:(lia)) as (Hj & s' & Hstep & _ & _ & _ & Hs & _).
  exists s'.
  destruct (Z.ltb_spec (uniform_int 0 (num_processed_ s) (rand_gen_ s)).1
                       (num_to_sample_ s)) as [Hacc|_]; [lia|].
  split; [exact Hstep | congruence].
Qed.

(** The [process] the documentation prints and the [process] of the header
    do the same on every state the sampler can be in between two calls. *)
Theorem documented_process_agrees value s :
  invariant s -> process_documented value s = process value s.
Proof.
  intros (Hk & Hp & Hlen). unfold process_documented, process, numProcessed, numToSample.
  destruct (int_of (num_processed_ s) <? 0); [reflexivity|].
  destruct (uniform_int 0 (int_of (num_processed_ s)) (rand_gen_ s)) as [j rand_gen].
  destruct (Index_of j <? num_to_sample_ s); [|reflexivity].
  rewrite !Z.geb_leb.
  destruct (Z.leb_spec (num_to_sample_ s) (Z.of_nat (length (samples_ s)))),
           (Z.leb_spec (num_to_sample_ s) (num_processed_ s)); try reflexivity; lia.
Qed.

End WithValue.

(** ** The theorems at the inputs of the tests *)

Lemma process_keeps_or_takes_witness :
  exists s', process 4 sampler_3 = Ok (true, s') /\ 4 ∈ samples s'.
Proof.
  eexists. split; [vm_compute; reflexivity|].
  eapply (process_keeps_or_takes 4 sampler_3 true); [vm_compute; reflexivity | reflexivity].
Defined.

Lemma samples_come_from_stream_witness :
  exists s0 s : t Z Z,
    ctor 4 1 = Ok s0 /\
    process_all [3; 4; 5; 8; 0; 1; 2; 3; 4; 5; 6; 7; 8; 9] s0 = Ok s /\
    samples s = [2; 5; 5; 8] /\
    forall x, x ∈ samples s -> x ∈ [3; 4; 5; 8; 0; 1; 2; 3; 4; 5; 6; 7; 8; 9].
Proof.
  do 2 eexists. split; [reflexivity|]. split; [vm_compute; reflexivity|].
  split; [reflexivity|].
  eapply (samples_come_from_stream 4 (1 : Z)); [reflexivity | vm_compute; reflexivity].
Defined.

Lemma filling_then_replacing_witness :
  invariant sampler_3 /\ numProcessed sampler_3 <= INT_MAX /\
  numProcessed sampler_3 < numToSample sampler_3 /\
  exists s', process 4 sampler_3 = Ok (true, s') /\ samples s' = samples sampler_3 ++ [4].
Proof.
  assert (Hinv : invariant sampler_3) by (unfold invariant; simpl; repeat split; lia).
  assert (Hmax : numProcessed sampler_3 <= INT_MAX) by (vm_compute; discriminate).
  assert (Hroom : numProcessed sampler_3 < numToSample sampler_3) by reflexivity.
  split; [exact Hinv|]. split; [exact Hmax|]. split; [exact Hroom|].
  exact (proj1 (filling_then_replacing 4 sampler_3 Hinv Hmax) Hroom).
Defined.

Lemma zero_capacity_takes_nothing_witness :
  Z.of_nat (length [4; 5]) <= 2147483648 /\
  exists s0 s : t Z Z,
    ctor 0 1 = Ok s0 /\ process_all [4; 5] s0 = Ok s /\ samples s = [] /\
    numProcessed s = 2.
Proof.
  assert (Hlen : Z.of_nat (length [4; 5]) <= 2147483648) by (simpl; lia).
  split; [exact Hlen|].
  destruct (zero_capacity_takes_nothing (1 : Z) [4; 5] Hlen)
    as (s0 & s & Hctor & Hrun & Hs & Hp & _).
  exists s0, s. split; [exact Hctor|]. split; [exact Hrun|]. split; [exact Hs | exact Hp].
Defined.

Lemma documented_process_agrees_witness :
  invariant sampler_3 /\ process_documented 4 sampler_3 = process 4 sampler_3.
Proof.
  assert (Hinv : invariant sampler_3) by (unfold invariant; simpl; repeat split; lia).
  split; [exact Hinv | exact (documented_process_agrees 4 sampler_3 Hinv)].
Defined.

End ReservoirSamplingLaws.
